(** * cargo_build.py: the Cargo build wrapper of squeekboard

    A shallow embedding of [cargo_build.py].  The script classifies its
    command line (lines 15-35), runs [cargo.sh build] (lines 37-39) and
    copies the produced artifact to the requested place (lines 41-48).

    Python values are modelled as the script uses them: [sys.argv[1:]] is a
    [list string], the mutable list [args] is threaded through the steps
    that pop from it, an uncaught exception is a [Raise] result, and the two
    [subprocess.run] calls act on an abstract world. *)

From Stdlib Require Import String Ascii List Bool Arith Lia ZArith Permutation.
Import ListNotations.
Local Open Scope string_scope.
Local Open Scope list_scope.

(** ** Python primitives used by the script *)

Module Py.

(** The exceptions the script can die of. *)
Inductive exn : Type :=
| ValueError
| IndexError
| CalledProcessError (returncode : Z).

(** [x in l] on a list of strings. *)
Definition contains (x : string) (l : list string) : bool :=
  existsb (String.eqb x) l.

(** [l.index(x)]: position of the first element equal to [x];
    [None] stands for the [ValueError] Python raises. *)
Fixpoint index (x : string) (l : list string) : option nat :=
  match l with
  | [] => None
  | y :: l' => if String.eqb y x then Some 0
               else option_map S (index x l')
  end.

(** [l.pop(i)] for [i >= 0]: the element and the list without it;
    [None] stands for the [IndexError] of an index out of range. *)
Fixpoint pop (i : nat) (l : list string) : option (string * list string) :=
  match l, i with
  | [], _ => None
  | y :: l', 0 => Some (y, l')
  | y :: l', S j =>
      match pop j l' with
      | Some (x, r) => Some (x, y :: r)
      | None => None
      end
  end.

(** [s.startswith(p)]. *)
Definition startswith (s p : string) : bool := String.prefix p s.

(** Truth value of a [str]: only the empty string is false. *)
Definition truthy (s : string) : bool :=
  match s with EmptyString => false | String _ _ => true end.

(** [a or b] where [a] is [None] or a [str], and [b] a [str]. *)
Definition or_else (a : option string) (b : string) : string :=
  match a with
  | Some s => if truthy s then s else b
  | None => b
  end.

End Py.

(** ** Classification of the command line (lines 15-35) *)

Module CargoBuild.
Import Py.

Definition release_flag : string := "--release".
Definition rename_flag : string := "--rename".
Definition flag_prefix : string := "--".

(** Lines 16-19. *)
Definition binary_dir (args : list string) : string :=
  if contains release_flag args then "release" else "debug".

(** Lines 22-28: [filename] and the list [args] after the two pops. *)
Definition take_rename (args : list string)
  : exn + (option string * list string) :=
  match index rename_flag args with
  | None => inr (None, args)
  | Some i =>
      match pop i args with
      | None => inl IndexError
      | Some (_, args1) =>
          match pop i args1 with
          | None => inl IndexError
          | Some (filename, args2) => inr (Some filename, args2)
          end
      end
  end.

Definition positional (arg : string) : bool :=
  negb (startswith arg flag_prefix).

(** Lines 31-35.  [out_path] is first the list of positional arguments;
    when that list is not empty it becomes its first element, which is
    popped from [args].  [None] is the empty list the variable keeps
    otherwise. *)
Definition take_out_path (args : list string)
  : exn + (option string * list string) :=
  match filter positional args with
  | [] => inr (None, args)
  | out_path :: _ =>
      match index out_path args with
      | None => inl ValueError
      | Some i =>
          match pop i args with
          | None => inl IndexError
          | Some (_, args') => inr (Some out_path, args')
          end
      end
  end.

(** What the script knows when it reaches line 37. *)
Record BuildInvocation : Type := {
  inv_binary_dir : string;
  inv_filename : option string;
  inv_out_path : option string;
  inv_args : list string
}.

Definition classify (argv : list string) : exn + BuildInvocation :=
  let args := argv in
  let binary_dir := binary_dir args in
  match take_rename args with
  | inl e => inl e
  | inr (filename, args) =>
      match take_out_path args with
      | inl e => inl e
      | inr (out_path, args) =>
          inr {| inv_binary_dir := binary_dir;
                 inv_filename := filename;
                 inv_out_path := out_path;
                 inv_args := args |}
      end
  end.

(** The names the specification gives to the four components. *)
Inductive Mode : Type := Debug | Release.

Definition mode (inv : BuildInvocation) : Mode :=
  if String.eqb (inv_binary_dir inv) "release" then Release else Debug.

Definition mode_dir (m : Mode) : string :=
  match m with Debug => "debug" | Release => "release" end.

Definition renamedArtifactName := inv_filename.
Definition destinationPath := inv_out_path.
Definition passthroughArgs := inv_args.

(** The tokens of the rename directive and of the destination that the
    classifier took out of the argument list. *)
Definition rename_tokens (inv : BuildInvocation) : list string :=
  match inv_filename inv with
  | Some v => [rename_flag; v]
  | None => []
  end.

Definition destination_tokens (inv : BuildInvocation) : list string :=
  match inv_out_path inv with
  | Some d => [d]
  | None => []
  end.

Definition release_tokens (inv : BuildInvocation) : list string :=
  match mode inv with
  | Release => [release_flag]
  | Debug => []
  end.

End CargoBuild.

(** ** The part of [pathlib] the script uses (POSIX flavour) *)

Module PosixPath.
Import Py.

(** A parsed path: the root ([""], ["/"] or ["//"]) and the components
    after it. *)
Record Path : Type := { root : string; parts : list string }.

(** [s.split('/')]. *)
Fixpoint split (s : string) : list string :=
  match s with
  | EmptyString => [EmptyString]
  | String c s' =>
      if Ascii.eqb c "/"%char then EmptyString :: split s'
      else match split s' with
           | [] => [String c EmptyString]
           | h :: t => String c h :: t
           end
  end.

(** Number of slashes [s.lstrip('/')] removes. *)
Fixpoint leading_slashes (s : string) : nat :=
  match s with
  | String c s' => if Ascii.eqb c "/"%char then S (leading_slashes s') else 0
  | EmptyString => 0
  end.

(** [splitroot]: exactly two leading slashes are kept as they are, any
    other positive number is one slash. *)
Definition splitroot (s : string) : string :=
  match leading_slashes s with
  | 0 => ""
  | 2 => "//"
  | _ => "/"
  end.

Definition component (x : string) : bool :=
  negb (String.eqb x "" || String.eqb x ".").

(** [Path(s)]: empty components and ["."] are dropped. *)
Definition of_string (s : string) : Path :=
  {| root := splitroot s; parts := filter component (split s) |}.

Definition is_absolute (p : Path) : bool := truthy (root p).

(** [Path(s).absolute()] in a process whose [os.getcwd()] is [cwd]. *)
Definition absolute (cwd : string) (p : Path) : Path :=
  if is_absolute p then p
  else let c := of_string cwd in
       {| root := root c; parts := parts c ++ parts p |}.

(** [p.name]: the last component, [''] when there is none. *)
Definition name (p : Path) : string := last (parts p) "".

(** [p.parent]. *)
Definition parent (p : Path) : Path :=
  {| root := root p; parts := removelast (parts p) |}.

(** [str(p)], which is also [p.as_posix()] and what [subprocess]
    receives for a [Path] argument. *)
Definition to_string (p : Path) : string :=
  match root p, parts p with
  | EmptyString, [] => "."
  | r, ps => (r ++ String.concat "/" ps)%string
  end.

End PosixPath.

(** ** The process: the two [subprocess.run] calls and the exit status *)

Module Script.
Import Py CargoBuild PosixPath.

(** What the interpreter gives the script besides [sys.argv]. *)
Record Env : Type := {
  script_file : string;  (* __file__ *)
  getcwd : string        (* os.getcwd() *)
}.

(** Line 13. *)
Definition source_dir (env : Env) : Path :=
  parent (absolute (getcwd env) (of_string (script_file env))).

(** A started child process: the directory it runs in and its command. *)
Record Call : Type := { call_dir : string; call_argv : list string }.

Inductive Res (A : Type) : Type :=
| Ret (a : A)
| Raise (e : exn).
Arguments Ret {A} a.
Arguments Raise {A} e.

(** Exit status of the interpreter: an uncaught exception gives 1. *)
Definition exit_status {A : Type} (r : Res A) : Z :=
  match r with Ret _ => 0%Z | Raise _ => 1%Z end.

Section Process.
Context {World : Type}.

(** A child process started in a directory with a command changes the
    world and ends with an exit status. *)
Variable spawn : string -> list string -> World -> World * Z.

Record St : Type := { world : World; calls : list Call }.

Definition M (A : Type) : Type := St -> Res A * St.

Definition ret {A : Type} (a : A) : M A := fun st => (Ret a, st).

Definition bind {A B : Type} (c : M A) (k : A -> M B) : M B :=
  fun st =>
    match c st with
    | (Ret a, st') => k a st'
    | (Raise e, st') => (Raise e, st')
    end.

Definition lift {A : Type} (r : exn + A) : M A :=
  fun st =>
    match r with
    | inl e => (Raise e, st)
    | inr a => (Ret a, st)
    end.

(** [subprocess.run(argv, cwd=cwd, check=True)].  Without [cwd] the
    child runs in the directory of the script's own process. *)
Definition subprocess_run (env : Env) (argv : list string)
    (cwd : option string) : M unit :=
  fun st =>
    let dir := match cwd with Some d => d | None => getcwd env end in
    let (w, returncode) := spawn dir argv (world st) in
    let st' := {| world := w;
                  calls := calls st ++ [{| call_dir := dir;
                                           call_argv := argv |}] |} in
    if Z.eqb returncode 0 then (Ret tt, st')
    else (Raise (CalledProcessError returncode), st').

Notation "x <- c ;; k" := (bind c (fun x => k))
  (at level 61, c at next level, right associativity).
Notation "' pat <- c ;; k" := (bind c (fun x => let 'pat := x in k))
  (at level 61, pat pattern, c at next level, right associativity).

(** Lines 37-39. *)
Definition build_argv (env : Env) (args : list string) : list string :=
  ["sh"; (to_string (source_dir env) ++ "/cargo.sh")%string; "build"]
    ++ args.

(** Lines 42-47: the command of the copy. *)
Definition copy_argv (env : Env) (binary_dir : string)
    (filename : option string) (out_path : string) : list string :=
  let out_path := absolute (getcwd env) (of_string out_path) in
  let out_basename := name out_path in
  let filename := or_else filename out_basename in
  ["cp"; "-a";
   ("./" ++ binary_dir ++ "/" ++ filename)%string;
   to_string out_path].

(** The whole script. *)
Definition main (env : Env) (argv : list string) : M unit :=
  let args := argv in
  let binary_dir := binary_dir args in
  '(filename, args) <- lift (take_rename args) ;;
  '(out_path, args) <- lift (take_out_path args) ;;
  _ <- subprocess_run env (build_argv env args) None ;;
  match out_path with
  | Some out_path =>
      (* line 41: a [str] is true unless it is empty *)
      if truthy out_path
      then subprocess_run env
             (copy_argv env binary_dir filename out_path) None
      else ret tt
  | None =>
      (* line 41: [out_path] is still the empty list, which is false *)
      ret tt
  end.

(** Running the script in a world: what the world becomes, the child
    processes started, in order, and the exit status. *)
Definition run (env : Env) (argv : list string) (w : World)
  : World * list Call * Z :=
  let (r, st) := main env argv {| world := w; calls := [] |} in
  (world st, calls st, exit_status r).

End Process.

Arguments St World : clear implicits.
Arguments M World A : clear implicits.

End Script.

(** * debian/check_release.py: the tag check before a release

    The script reads the first line of the changelog with [input()], takes
    the version between parentheses and the [x.y.z] number in it with two
    regular expressions, and looks for the tag [v] + [x.y.z] among the
    remaining lines of the standard input.  A character is a code point
    below 256. *)

(** ** The part of [re] the two patterns use *)

Module Regex.

(** A pattern: one character of a class, the greedy repetition [c*] of a
    class, a sequence, and the capturing group. *)
Inductive regex : Type :=
| Chr (p : ascii -> bool)
| Star (p : ascii -> bool)
| Seq (r1 r2 : regex)
| Group (r : regex).

(** [c+]. *)
Definition Plus (p : ascii -> bool) : regex := Seq (Chr p) (Star p).

(** The greedy repetition tries the longest run first and gives
    characters back one by one while the rest of the pattern, the
    continuation [k], fails.  [k] receives the text matched and the text
    left. *)
Fixpoint star {A : Type} (p : ascii -> bool) (s : string)
    (k : string -> string -> option A) : option A :=
  match s with
  | String c s' =>
      if p c
      then match star p s' (fun t rest => k (String c t) rest) with
           | Some r => Some r
           | None => k "" s
           end
      else k "" s
  | EmptyString => k "" ""
  end.

(** Backtracking match of a pattern at the start of [s].  The
    continuation receives the text of the group, if it was passed, the
    text matched by the pattern and the text left. *)
Fixpoint matches {A : Type} (r : regex) (cap : option string) (s : string)
    (k : option string -> string -> string -> option A) : option A :=
  match r with
  | Chr p =>
      match s with
      | String c s' => if p c then k cap (String c "") s' else None
      | EmptyString => None
      end
  | Star p => star p s (k cap)
  | Seq r1 r2 =>
      matches r1 cap s (fun cap1 t1 s1 =>
        matches r2 cap1 s1 (fun cap2 t2 s2 => k cap2 (t1 ++ t2)%string s2))
  | Group r' => matches r' cap s (fun _ t rest => k (Some t) t rest)
  end.

Definition match_here (r : regex) (s : string) : option (option string) :=
  matches r None s (fun cap _ _ => Some cap).

(** [re.search]: the match at the leftmost position that has one. *)
Fixpoint search (r : regex) (s : string) : option (option string) :=
  match match_here r s with
  | Some cap => Some cap
  | None =>
      match s with
      | String _ s' => search r s'
      | EmptyString => None
      end
  end.

(** [re.findall(r, s)[0]] for a pattern with one group: the text of the
    group in the first match; [None] stands for the [IndexError] of an
    empty list. *)
Definition findall_first (r : regex) (s : string) : option string :=
  match search r s with
  | Some (Some g) => Some g
  | Some None => Some ""
  | None => None
  end.

Definition lit (c : ascii) : ascii -> bool := Ascii.eqb c.

(** [.]: every character but the newline. *)
Definition dot (c : ascii) : bool := negb (Ascii.eqb c "010"%char).

(** [[0-9]]. *)
Definition digit (c : ascii) : bool :=
  ((48 <=? nat_of_ascii c) && (nat_of_ascii c <=? 57))%nat.

(** Every character of [s] is in the class [p]. *)
Fixpoint every (p : ascii -> bool) (s : string) : bool :=
  match s with
  | String c s' => p c && every p s'
  | EmptyString => true
  end.

(** The class of the characters that are not in [p]. *)
Definition non (p : ascii -> bool) (c : ascii) : bool := negb (p c).

(** [s] starts with a character of the class [p]. *)
Definition starts_in (p : ascii -> bool) (s : string) : bool :=
  match s with
  | String c _ => p c
  | EmptyString => false
  end.

End Regex.

(** ** The script *)

Module CheckRelease.
Import Regex.

Inductive error : Type :=
| EOFError
| IndexError
| Exception (message : string).

(** The end of a line, as [readlines] leaves it. *)
Definition newline : string := String "010"%char EmptyString.

(** The characters [str.strip()] removes. *)
Definition whitespace (c : ascii) : bool :=
  let n := nat_of_ascii c in
  (((9 <=? n) && (n <=? 13)) || ((28 <=? n) && (n <=? 32))
   || (n =? 133) || (n =? 160))%nat.

Fixpoint lstrip (s : string) : string :=
  match s with
  | String c s' => if whitespace c then lstrip s' else s
  | EmptyString => EmptyString
  end.

Fixpoint rstrip (s : string) : string :=
  match s with
  | String c s' =>
      match rstrip s' with
      | EmptyString => if whitespace c then EmptyString
                       else String c EmptyString
      | r => String c r
      end
  | EmptyString => EmptyString
  end.

(** [str.strip]. *)
Definition strip (s : string) : string := lstrip (rstrip s).

(** The first pattern: an opening parenthesis, the group made of [.]
    repeated, a closing parenthesis. *)
Definition version_re : regex :=
  Seq (Chr (lit "("%char)) (Seq (Group (Star dot)) (Chr (lit ")"%char))).

(** The second pattern: the group made of three runs of digits separated
    by two dots, then [.] repeated. *)
Definition number_re : regex :=
  Seq (Group (Seq (Plus digit)
               (Seq (Chr (lit "."%char))
                  (Seq (Plus digit)
                     (Seq (Chr (lit "."%char)) (Plus digit))))))
      (Star dot).

Definition missing_tag : string :=
  "Changelog's current version doesn't have a tag. Push the tag!".

(** Lines 8-11.  [line] is what [input()] returns, [None] at the end of
    the input; [lines] is what [sys.stdin.readlines()] returns then. *)
Definition check_release (line : option string) (lines : list string)
  : error + unit :=
  match line with
  | None => inl EOFError
  | Some line =>
      match findall_first version_re line with
      | None => inl IndexError
      | Some version =>
          match findall_first number_re version with
          | None => inl IndexError
          | Some number =>
              let tag := ("v" ++ number)%string in
              if existsb (String.eqb tag) (map strip lines)
              then inr tt
              else inl (Exception missing_tag)
          end
      end
  end.

(** A first line of the expected form, with its [x.y.z] number: the first
    opening parenthesis of the line is followed by a version that goes to
    the last closing parenthesis; the version has no newline; in it,
    after a part without digits, come three runs of digits separated by
    two dots and then something that is not a digit. *)
Definition changelog_line (line number : string) : Prop :=
  exists pre vpre d1 d2 d3 vrest post,
    line = (pre ++ "(" ++ (vpre ++ number ++ vrest) ++ ")" ++ post)%string
    /\ number = (d1 ++ "." ++ d2 ++ "." ++ d3)%string
    /\ every (non (lit "("%char)) pre = true
    /\ every (non (lit ")"%char)) post = true
    /\ every dot (vpre ++ number ++ vrest) = true
    /\ every (non digit) vpre = true
    /\ (d1 <> "" /\ d2 <> "" /\ d3 <> "")
    /\ (every digit d1 = true /\ every digit d2 = true
        /\ every digit d3 = true)
    /\ starts_in digit vrest = false.

End CheckRelease.

(** * tools/entry.py: the grids of the demo window

    [new_grid] and [add_random] fill a [Gtk.Grid] with one row per item.
    The grid is modelled by what the code gives it: its construction
    properties and the [attach] calls, in order. *)

Module EntryDemo.

Inductive InputPurpose : Type :=
| FREE_FORM | ALPHA | DIGITS | NUMBER | PHONE | URL | EMAIL | NAME
| PASSWORD | PIN | TERMINAL.

Inductive InputHints : Type := INHIBIT_OSK | UPPERCASE_CHARS.

(** A [Gtk.Entry] as the script sets it up.  [None] is a property the
    script leaves as the toolkit made it. *)
Record Entry : Type := {
  hexpand : bool;
  input_purpose : option InputPurpose;
  input_hints : option InputHints;
  handlers : list string
}.

(** [Gtk.Entry(hexpand=True)]. *)
Definition new_entry : Entry :=
  {| hexpand := true; input_purpose := None; input_hints := None;
     handlers := [] |}.

Inductive Widget : Type :=
| Label (label : string)
| EntryWidget (e : Entry).

(** [grid.attach(child, left, top, width, height)]. *)
Record Attach : Type := {
  child : Widget; left : nat; top : nat; width : nat; height : nat
}.

Record Grid : Type := {
  orientation : string;
  column_spacing : nat;
  row_spacing : nat;
  margin : nat;
  attached : list Attach
}.

Definition attach (grid : Grid) (w : Widget) (l t wd h : nat) : Grid :=
  {| orientation := orientation grid;
     column_spacing := column_spacing grid;
     row_spacing := row_spacing grid;
     margin := margin grid;
     attached := attached grid
                   ++ [{| child := w; left := l; top := t;
                          width := wd; height := h |}] |}.

(** Lines 22-29: the loop of [new_grid], from the row [i] on. *)
Fixpoint new_grid_rows {V : Type} (set_type : Entry -> V -> Entry)
    (items : list (string * V)) (i : nat) (grid : Grid) : Grid :=
  match items with
  | [] => grid
  | (text, value) :: items' =>
      let l := Label text in
      let e := set_type new_entry value in
      let grid := attach grid l 0 i 1 1 in
      let grid := attach grid (EntryWidget e) 1 i 1 1 in
      new_grid_rows set_type items' (i + 1) grid
  end.

(** Lines 18-30. *)
Definition new_grid {V : Type} (items : list (string * V))
    (set_type : Entry -> V -> Entry) : Grid :=
  let grid := {| orientation := "vertical"; column_spacing := 8;
                 row_spacing := 8; margin := 6; attached := [] |} in
  new_grid_rows set_type items 0 grid.

(** Lines 12-16 and 35-46: [terminal] is empty when the toolkit has no
    terminal purpose. *)
Definition purposes (has_terminal : bool) : list (string * InputPurpose) :=
  [("Free form", FREE_FORM); ("Alphabetical", ALPHA); ("Digits", DIGITS);
   ("Number", NUMBER); ("Phone", PHONE); ("URL", URL); ("E-mail", EMAIL);
   ("Name", NAME); ("Password", PASSWORD); ("PIN", PIN)]
  ++ (if has_terminal then [("Terminal", TERMINAL)] else []).

(** Lines 48-51. *)
Definition hints : list (string * InputHints) :=
  [("OSK provided", INHIBIT_OSK); ("Uppercase chars", UPPERCASE_CHARS)].

(** Lines 82-85: the two callbacks of [do_activate]. *)
Definition add_purpose (entry : Entry) (purpose : InputPurpose) : Entry :=
  {| hexpand := hexpand entry; input_purpose := Some purpose;
     input_hints := input_hints entry; handlers := handlers entry |}.

Definition add_hint (entry : Entry) (hint : InputHints) : Entry :=
  {| hexpand := hexpand entry; input_purpose := input_purpose entry;
     input_hints := Some hint; handlers := handlers entry |}.

(** Lines 70-76. *)
Definition add_random (has_terminal : bool) (grid : Grid) : Grid :=
  let l := Label "Random" in
  let e := new_entry in
  let e := {| hexpand := hexpand e; input_purpose := input_purpose e;
              input_hints := input_hints e;
              handlers := handlers e ++ ["notify::is-focus"] |} in
  let e := add_purpose e FREE_FORM in
  let grid := attach grid l 0 (length (purposes has_terminal)) 1 1 in
  attach grid (EntryWidget e) 1 (length (purposes has_terminal)) 1 1.

(** Lines 86-88 of [do_activate]: the two grids of the window. *)
Definition purpose_grid (has_terminal : bool) : Grid :=
  add_random has_terminal (new_grid (purposes has_terminal) add_purpose).

Definition hint_grid : Grid := new_grid hints add_hint.

(** The cell of an attached child. *)
Definition cell (a : Attach) : nat * nat := (left a, top a).

End EntryDemo.

Import Py CargoBuild PosixPath Script.

(** ** Views used to state the properties *)

(** The command of the copy the script will run after a successful build,
    when it runs one. *)
Definition copy_command (env : Env) (inv : BuildInvocation)
  : option (list string) :=
  match inv_out_path inv with
  | Some s =>
      if truthy s
      then Some (copy_argv env (inv_binary_dir inv) (inv_filename inv) s)
      else None
  | None => None
  end.

(** The file name of the artifact in the words of the specification: the
    rename value if there is one, else the basename of the destination. *)
Definition spec_filename (inv : BuildInvocation) (dest : Path) : string :=
  match renamedArtifactName inv with
  | Some n => n
  | None => name dest
  end.

(** A token that starts with the flag prefix. *)
Definition is_flag (arg : string) : Prop := positional arg = false.

(** A small concrete world for examples: the files written so far.  The
    build ends with the given status and writes nothing; [cp] writes its
    last argument. *)
Definition toy_spawn (build_status : Z) (dir : string) (argv : list string)
    (w : list string) : list string * Z :=
  match argv with
  | "cp" :: _ => (last argv "" :: w, 0%Z)
  | _ => (w, build_status)
  end.

Definition toy_env : Env :=
  {| script_file := "/src/cargo_build.py"; getcwd := "/build" |}.

(** [l1] is [l2] with some elements left out, the others in their
    order. *)
Inductive Subseq : list string -> list string -> Prop :=
| Subseq_nil : Subseq [] []
| Subseq_skip (x : string) (l1 l2 : list string) :
    Subseq l1 l2 -> Subseq l1 (x :: l2)
| Subseq_keep (x : string) (l1 l2 : list string) :
    Subseq l1 l2 -> Subseq (x :: l1) (x :: l2).

(** A world in which the build succeeds and writes nothing, and [cp]
    writes nothing and ends with the given status. *)
Definition toy_spawn_cp (cp_status : Z) (dir : string) (argv : list string)
    (w : list string) : list string * Z :=
  match argv with
  | "cp" :: _ => (w, cp_status)
  | _ => (w, 0%Z)
  end.

(** ** Facts about the list primitives *)

Section ListFacts.

Lemma contains_In (x : string) (l : list string) :
  contains x l = true <-> In x l.
Proof.
  unfold contains. rewrite existsb_exists. split.
  - intros (y & Hy & E). apply String.eqb_eq in E. now subst.
  - intros H. exists x. split; [assumption | apply String.eqb_refl].
Qed.

Lemma index_first (x : string) (pre post : list string) :
  ~ In x pre -> index x (pre ++ x :: post) = Some (length pre).
Proof.
  induction pre as [|y pre IH]; simpl; intros H.
  - now rewrite String.eqb_refl.
  - destruct (String.eqb_spec y x) as [->|_].
    + exfalso. apply H. now left.
    + rewrite IH; [reflexivity | tauto].
Qed.

Lemma index_absent (x : string) (l : list string) :
  index x l = None <-> ~ In x l.
Proof.
  induction l as [|y l IH]; simpl.
  - tauto.
  - destruct (String.eqb_spec y x) as [->|N].
    + split; [discriminate | intros H; exfalso; apply H; now left].
    + destruct (index x l); simpl.
      * split; [discriminate |].
        intros H. exfalso. apply H. right. apply Decidable.not_not.
        { destruct (in_dec string_dec x l); [now left | now right]. }
        intros H'. apply IH in H'. discriminate.
      * split; [| reflexivity]. intros _ [E | H]; [now apply N |].
        now apply IH.
Qed.

Lemma index_split (x : string) (l : list string) (i : nat) :
  index x l = Some i ->
  exists pre post, l = pre ++ x :: post /\ ~ In x pre /\ i = length pre.
Proof.
  revert i. induction l as [|y l IH]; simpl; intros i H; [discriminate |].
  destruct (String.eqb_spec y x) as [->|N].
  - injection H as <-. exists [], l. simpl. tauto.
  - destruct (index x l) as [j|]; [| discriminate].
    injection H as <-.
    destruct (IH j eq_refl) as (pre & post & -> & Hpre & ->).
    exists (y :: pre), post. simpl. intuition congruence.
Qed.

Lemma pop_middle (pre post : list string) (x : string) :
  pop (length pre) (pre ++ x :: post) = Some (x, pre ++ post).
Proof.
  induction pre as [|y pre IH]; simpl; [reflexivity |].
  now rewrite IH.
Qed.

Lemma pop_end (pre : list string) : pop (length pre) pre = None.
Proof.
  induction pre as [|y pre IH]; simpl; [reflexivity |].
  now rewrite IH.
Qed.

End ListFacts.


(** ** Facts about the two classification steps *)

Section ClassifierFacts.

Lemma take_rename_absent (args : list string) :
  ~ In rename_flag args -> take_rename args = inr (None, args).
Proof.
  intros H. unfold take_rename.
  now rewrite (proj2 (index_absent rename_flag args) H).
Qed.

Lemma take_rename_pair (pre post : list string) (v : string) :
  ~ In rename_flag pre ->
  take_rename (pre ++ rename_flag :: v :: post) = inr (Some v, pre ++ post).
Proof.
  intros H. unfold take_rename.
  rewrite (index_first _ _ _ H), pop_middle, pop_middle. reflexivity.
Qed.

Lemma take_rename_last (pre : list string) :
  ~ In rename_flag pre ->
  take_rename (pre ++ [rename_flag]) = inl IndexError.
Proof.
  intros H. unfold take_rename.
  rewrite (index_first _ _ _ H), pop_middle, app_nil_r, pop_end.
  reflexivity.
Qed.

(** Every argument list is in exactly one of the three shapes above. *)
Lemma rename_shape (args : list string) :
  ~ In rename_flag args
  \/ (exists pre, args = pre ++ [rename_flag] /\ ~ In rename_flag pre)
  \/ (exists pre v post,
         args = pre ++ rename_flag :: v :: post /\ ~ In rename_flag pre).
Proof.
  destruct (index rename_flag args) as [i|] eqn:E.
  - right. apply index_split in E as (pre & post & -> & H & _).
    destruct post as [|v post].
    + left. now exists pre.
    + right. now exists pre, v, post.
  - left. now apply index_absent.
Qed.

Lemma take_rename_inv (args rest : list string) (f : option string) :
  take_rename args = inr (f, rest) ->
  (f = None /\ rest = args /\ ~ In rename_flag args)
  \/ (exists pre v post,
         args = pre ++ rename_flag :: v :: post /\ ~ In rename_flag pre
         /\ f = Some v /\ rest = pre ++ post).
Proof.
  intros H.
  destruct (rename_shape args) as [N | [(pre & -> & N) | (pre & v & post & -> & N)]].
  - rewrite (take_rename_absent _ N) in H. injection H as <- <-. now left.
  - rewrite (take_rename_last _ N) in H. discriminate.
  - rewrite (take_rename_pair _ _ _ N) in H. injection H as <- <-.
    right. now exists pre, v, post.
Qed.

Lemma positional_shape (l : list string) :
  Forall is_flag l
  \/ (exists pre o post,
         l = pre ++ o :: post /\ Forall is_flag pre /\ positional o = true).
Proof.
  induction l as [|a l IH].
  - left. constructor.
  - destruct (positional a) eqn:Ea.
    + right. exists [], a, l. repeat split; [constructor | assumption].
    + destruct IH as [IH | (pre & o & post & -> & Hpre & Ho)].
      * left. now constructor.
      * right. exists (a :: pre), o, post.
        repeat split; [now constructor | assumption].
Qed.

Lemma filter_flags (l : list string) :
  Forall is_flag l -> filter positional l = [].
Proof.
  induction 1 as [|a l Ha _ IH]; simpl; [reflexivity |].
  now rewrite Ha.
Qed.

Lemma flags_not_positional (pre : list string) (o : string) :
  Forall is_flag pre -> positional o = true -> ~ In o pre.
Proof.
  intros Hpre Ho Hin. rewrite Forall_forall in Hpre.
  specialize (Hpre o Hin). unfold is_flag in Hpre. congruence.
Qed.

Lemma take_out_path_none (l : list string) :
  Forall is_flag l -> take_out_path l = inr (None, l).
Proof.
  intros H. unfold take_out_path. now rewrite (filter_flags _ H).
Qed.

Lemma take_out_path_first (pre post : list string) (o : string) :
  Forall is_flag pre -> positional o = true ->
  take_out_path (pre ++ o :: post) = inr (Some o, pre ++ post).
Proof.
  intros Hpre Ho. unfold take_out_path.
  rewrite filter_app, (filter_flags _ Hpre). simpl. rewrite Ho.
  rewrite (index_first _ _ _ (flags_not_positional _ _ Hpre Ho)), pop_middle.
  reflexivity.
Qed.

Lemma take_out_path_inv (l r : list string) (o : option string) :
  take_out_path l = inr (o, r) ->
  (o = None /\ r = l /\ Forall is_flag l)
  \/ (exists pre d post,
         l = pre ++ d :: post /\ Forall is_flag pre /\ positional d = true
         /\ o = Some d /\ r = pre ++ post).
Proof.
  intros H.
  destruct (positional_shape l) as [F | (pre & d & post & -> & F & P)].
  - rewrite (take_out_path_none _ F) in H. injection H as <- <-. now left.
  - rewrite (take_out_path_first _ _ _ F P) in H. injection H as <- <-.
    right. now exists pre, d, post.
Qed.

(** The destination step never raises. *)
Lemma take_out_path_total (l : list string) :
  exists o r, take_out_path l = inr (o, r).
Proof.
  destruct (positional_shape l) as [F | (pre & d & post & -> & F & P)].
  - exists None, l. now apply take_out_path_none.
  - exists (Some d), (pre ++ post). now apply take_out_path_first.
Qed.

Lemma take_out_path_incl (l r : list string) (o : option string) :
  take_out_path l = inr (o, r) -> incl r l.
Proof.
  intros H x Hx.
  apply take_out_path_inv in H
    as [(_ & -> & _) | (pre & d & post & -> & _ & _ & _ & ->)];
    [assumption |].
  apply in_app_or in Hx. apply in_or_app. simpl. tauto.
Qed.


Lemma classify_steps (args : list string) (inv : BuildInvocation) :
  classify args = inr inv <->
  exists rest,
    take_rename args = inr (inv_filename inv, rest)
    /\ take_out_path rest = inr (inv_out_path inv, inv_args inv)
    /\ inv_binary_dir inv = binary_dir args.
Proof.
  unfold classify. split.
  - destruct (take_rename args) as [e | [f rest]]; [discriminate |].
    destruct (take_out_path rest) as [e | [o r]] eqn:E; [discriminate |].
    intros H. injection H as <-. simpl. exists rest. now rewrite E.
  - intros (rest & -> & -> & E). destruct inv; simpl in *. now subst.
Qed.

Lemma mode_of_classified (args : list string) (inv : BuildInvocation) :
  inv_binary_dir inv = binary_dir args ->
  (mode inv = Release <-> In release_flag args)
  /\ inv_binary_dir inv = mode_dir (mode inv).
Proof.
  intros E. unfold mode. rewrite E. unfold binary_dir.
  rewrite <- contains_In.
  destruct (contains release_flag args); simpl.
  - split; [split; reflexivity | reflexivity].
  - split; [split; discriminate | reflexivity].
Qed.

End ClassifierFacts.

(** ** Facts about a run of the script *)

Section RunFacts.
Context {World : Type}.
Variable spawn : string -> list string -> World -> World * Z.
Variable env : Env.

Ltac enter_run H :=
  apply classify_steps in H as (rest & Hren & Hout & Hdir);
  unfold run, main, bind, lift, subprocess_run;
  rewrite Hren, Hout; simpl.

Lemma run_unclassified (args : list string) (e : exn) (w : World) :
  classify args = inl e -> run spawn env args w = (w, [], 1%Z).
Proof.
  unfold classify, run, main, bind, lift. intros H.
  destruct (take_rename args) as [e' | [f rest]]; [reflexivity |].
  destruct (take_out_path_total rest) as (o & r & E).
  rewrite E in H. discriminate.
Qed.

Lemma run_build_fails (args : list string) (inv : BuildInvocation)
    (w w1 : World) (rc : Z) :
  classify args = inr inv ->
  spawn (getcwd env) (build_argv env (inv_args inv)) w = (w1, rc) ->
  rc <> 0%Z ->
  run spawn env args w = (w1, [{| call_dir := getcwd env;
      call_argv := build_argv env (inv_args inv) |}], 1%Z).
Proof.
  intros H Hb Hrc. enter_run H. rewrite Hb.
  apply Z.eqb_neq in Hrc. rewrite Hrc. reflexivity.
Qed.

Lemma run_without_copy (args : list string) (inv : BuildInvocation)
    (w w1 : World) :
  classify args = inr inv ->
  spawn (getcwd env) (build_argv env (inv_args inv)) w = (w1, 0%Z) ->
  copy_command env inv = None ->
  run spawn env args w = (w1, [{| call_dir := getcwd env;
      call_argv := build_argv env (inv_args inv) |}], 0%Z).
Proof.
  intros H Hb Hc. enter_run H. rewrite Hb. simpl.
  unfold copy_command in Hc.
  destruct (inv_out_path inv) as [s|]; [| reflexivity].
  destruct (truthy s); [discriminate | reflexivity].
Qed.

Lemma run_with_copy (args : list string) (inv : BuildInvocation)
    (w w1 w2 : World) (c : list string) (rc : Z) :
  classify args = inr inv ->
  spawn (getcwd env) (build_argv env (inv_args inv)) w = (w1, 0%Z) ->
  copy_command env inv = Some c ->
  spawn (getcwd env) c w1 = (w2, rc) ->
  run spawn env args w
  = (w2,
     [{| call_dir := getcwd env;
        call_argv := build_argv env (inv_args inv) |};
      {| call_dir := getcwd env; call_argv := c |}],
     if Z.eqb rc 0 then 0%Z else 1%Z).
Proof.
  intros H Hb Hc Hcp. enter_run H. rewrite Hb. simpl.
  unfold copy_command in Hc. rewrite Hdir in Hc.
  destruct (inv_out_path inv) as [s|]; [| discriminate].
  destruct (truthy s); [| discriminate].
  injection Hc as Hc. rewrite Hc. cbn [world calls]. rewrite Hcp.
  destruct (Z.eqb rc 0); reflexivity.
Qed.

End RunFacts.

(** ** Properties of the classifier *)

(** C1, as the specification words it: counting the release flag among the
    consumed tokens does not give back the raw arguments.  For
    [--release] alone the mode is Release and the flag is also forwarded,
    so it would be counted twice. *)
Lemma consumed_tokens_counterexample :
  exists inv,
    classify ["--release"] = inr inv
    /\ ~ Permutation
           (release_tokens inv ++ rename_tokens inv
              ++ destination_tokens inv ++ passthroughArgs inv)
           ["--release"].
Proof.
  eexists. split; [reflexivity |].
  intros P. apply Permutation_length in P. discriminate P.
Qed.

(** C1 (amended): whenever classification succeeds, the rename flag with
    its value (when present), the destination token (when present) and
    the pass-through arguments together are the raw arguments, each
    token once.  The release flag is not among the consumed tokens. *)
Theorem consumed_tokens_partition (args : list string)
    (inv : BuildInvocation) :
  classify args = inr inv ->
  Permutation
    (rename_tokens inv ++ destination_tokens inv ++ passthroughArgs inv)
    args.
Proof.
  intros H. apply classify_steps in H as (rest & Hren & Hout & _).
  unfold rename_tokens, destination_tokens, passthroughArgs.
  assert (Pout : Permutation
            (match inv_out_path inv with Some d => [d] | None => [] end
               ++ inv_args inv) rest).
  { apply take_out_path_inv in Hout
      as [(-> & -> & _) | (pre & d & post & -> & _ & _ & -> & ->)].
    - reflexivity.
    - simpl. apply Permutation_middle. }
  apply take_rename_inv in Hren
    as [(-> & -> & _) | (pre & v & post & -> & _ & -> & ->)].
  - exact Pout.
  - simpl. rewrite Pout.
    transitivity (rename_flag :: pre ++ v :: post).
    + constructor. apply Permutation_middle.
    + apply Permutation_middle.
Qed.

Lemma consumed_tokens_partition_witness :
  Permutation
    (["--rename"; "app.bin"] ++ ["/out/myapp"] ++ ["--release"])
    ["--release"; "--rename"; "app.bin"; "/out/myapp"].
Proof.
  exact (consumed_tokens_partition
           ["--release"; "--rename"; "app.bin"; "/out/myapp"]
           {| inv_binary_dir := "release"; inv_filename := Some "app.bin";
              inv_out_path := Some "/out/myapp";
              inv_args := ["--release"] |}
           eq_refl).
Defined.

(** C4, as the specification words it: for [--release -o foo] the
    classifier does not leave all three tokens in the pass-through
    arguments. *)
Lemma release_o_foo_counterexample :
  ~ exists inv,
      classify ["--release"; "-o"; "foo"] = inr inv
      /\ mode inv = Release
      /\ passthroughArgs inv = ["--release"; "-o"; "foo"].
Proof.
  intros (inv & H & _ & P).
  vm_compute in H. injection H as <-. discriminate P.
Qed.

(** C4 (amended): for [--release -o foo] the mode is Release, [-o] is
    taken as the destination, because it does not start with two dashes,
    and [--release] and [foo] are passed through. *)
Theorem release_o_foo_classification :
  exists inv,
    classify ["--release"; "-o"; "foo"] = inr inv
    /\ mode inv = Release
    /\ renamedArtifactName inv = None
    /\ destinationPath inv = Some "-o"
    /\ passthroughArgs inv = ["--release"; "foo"].
Proof.
  eexists. split; [reflexivity |]. repeat split.
Qed.




(** C6, as the specification words it: a rename flag followed by a value
    does not keep the flag out of the pass-through arguments.  Only the
    first rename flag and its value are taken; in [--rename x --rename]
    the second flag is forwarded. *)
Lemma rename_pair_absent_counterexample :
  exists inv,
    classify ([] ++ rename_flag :: "x" :: ["--rename"]) = inr inv
    /\ renamedArtifactName inv = Some "x"
    /\ In rename_flag (passthroughArgs inv).
Proof.
  eexists. split; [reflexivity |]. split; [reflexivity | now left].
Qed.

(** C6 (amended): when the first rename flag of the argument list is
    followed by a value, classification succeeds, the rename name is that
    value, and the destination and the pass-through arguments are computed
    from the list without these two tokens.  So the flag is absent from
    the pass-through arguments when it occurs only once, and the value is
    absent when it occurs nowhere else. *)
Theorem rename_pair_consumed (pre post : list string) (v : string) :
  ~ In rename_flag pre ->
  exists inv,
    classify (pre ++ rename_flag :: v :: post) = inr inv
    /\ renamedArtifactName inv = Some v
    /\ take_out_path (pre ++ post)
       = inr (destinationPath inv, passthroughArgs inv)
    /\ (~ In rename_flag post -> ~ In rename_flag (passthroughArgs inv))
    /\ (~ In v (pre ++ post) -> ~ In v (passthroughArgs inv)).
Proof.
  intros Hpre.
  destruct (take_out_path_total (pre ++ post)) as (o & r & Hout).
  exists {| inv_binary_dir := binary_dir (pre ++ rename_flag :: v :: post);
            inv_filename := Some v; inv_out_path := o; inv_args := r |}.
  split.
  - apply classify_steps. exists (pre ++ post). simpl.
    now rewrite take_rename_pair.
  - simpl. split; [reflexivity |]. split; [exact Hout |].
    pose proof (take_out_path_incl _ _ _ Hout) as Hincl.
    split; intros N Hin; apply Hincl in Hin.
    + apply in_app_or in Hin. tauto.
    + tauto.
Qed.

Lemma rename_pair_consumed_witness :
  exists inv,
    classify (["--release"] ++ rename_flag :: "app.bin" :: ["/out/myapp"])
    = inr inv
    /\ renamedArtifactName inv = Some "app.bin"
    /\ take_out_path (["--release"] ++ ["/out/myapp"])
       = inr (destinationPath inv, passthroughArgs inv)
    /\ (~ In rename_flag ["/out/myapp"] ->
        ~ In rename_flag (passthroughArgs inv))
    /\ (~ In "app.bin" (["--release"] ++ ["/out/myapp"]) ->
        ~ In "app.bin" (passthroughArgs inv)).
Proof.
  apply (rename_pair_consumed ["--release"] ["/out/myapp"] "app.bin").
  simpl. intros [E | []]. discriminate E.
Defined.

(** The part of C9 that the code keeps: the value that follows the first
    rename flag is taken as the file name whatever it looks like, and it
    is removed before the destination is looked for, so the destination
    and the pass-through arguments are those of the list without the
    rename pair, the same for every value. *)
Lemma rename_value_literal (pre post : list string) (v v' : string) :
  ~ In rename_flag pre ->
  exists inv inv',
    classify (pre ++ rename_flag :: v :: post) = inr inv
    /\ classify (pre ++ rename_flag :: v' :: post) = inr inv'
    /\ renamedArtifactName inv = Some v
    /\ destinationPath inv = destinationPath inv'
    /\ passthroughArgs inv = passthroughArgs inv'
    /\ take_out_path (pre ++ post)
       = inr (destinationPath inv, passthroughArgs inv).
Proof.
  intros Hpre.
  destruct (take_out_path_total (pre ++ post)) as (o & r & Hout).
  exists {| inv_binary_dir := binary_dir (pre ++ rename_flag :: v :: post);
            inv_filename := Some v; inv_out_path := o; inv_args := r |},
         {| inv_binary_dir := binary_dir (pre ++ rename_flag :: v' :: post);
            inv_filename := Some v'; inv_out_path := o; inv_args := r |}.
  split; [| split].
  - apply classify_steps. exists (pre ++ post). simpl.
    now rewrite take_rename_pair.
  - apply classify_steps. exists (pre ++ post). simpl.
    now rewrite take_rename_pair.
  - simpl. repeat split. exact Hout.
Qed.

(** ** Properties of a run *)

(** C2: when classification succeeds and the build ends with a status
    other than zero, the script ends with status 1, the build is the only
    child process it started, and the world is the one the build left: no
    copy is run. *)
Theorem build_failure_is_fatal {World : Type}
    (spawn : string -> list string -> World -> World * Z)
    (env : Env) (args : list string) (inv : BuildInvocation) (w : World) :
  classify args = inr inv ->
  snd (spawn (getcwd env) (build_argv env (passthroughArgs inv)) w) <> 0%Z ->
  run spawn env args w
  = (fst (spawn (getcwd env) (build_argv env (passthroughArgs inv)) w),
     [{| call_dir := getcwd env;
         call_argv := build_argv env (passthroughArgs inv) |}],
     1%Z).
Proof.
  intros H Hrc. unfold passthroughArgs in *.
  destruct (spawn (getcwd env) (build_argv env (inv_args inv)) w)
    as [w1 rc] eqn:Hb.
  exact (run_build_fails spawn env args inv w w1 rc H Hb Hrc).
Qed.

Lemma build_failure_is_fatal_witness :
  run (toy_spawn 2) toy_env
      ["--release"; "--rename"; "app.bin"; "/out/myapp"] ["/out/myapp"]
  = (["/out/myapp"],
     [{| call_dir := "/build";
         call_argv := ["sh"; "/src/cargo.sh"; "build"; "--release"] |}],
     1%Z).
Proof.
  apply (build_failure_is_fatal (toy_spawn 2) toy_env
           ["--release"; "--rename"; "app.bin"; "/out/myapp"]
           {| inv_binary_dir := "release"; inv_filename := Some "app.bin";
              inv_out_path := Some "/out/myapp";
              inv_args := ["--release"] |}
           ["/out/myapp"] eq_refl).
  simpl. discriminate.
Defined.

(** C9: the code at [--rename --release out], where the value of the
    rename directive is the release flag token.  The value is taken as
    the file name and removed from the arguments, as C9 says; but line 18
    has looked for the release flag before lines 27-28 removed the pair,
    so the value has also selected the mode.  The build is started
    without [--release], and the copy then looks for the artifact under
    [release].  With another value, as in [--rename --target out], the
    same command line is a debug build and the copy looks under
    [debug]. *)
Theorem rename_value_selects_mode :
  (exists inv,
      classify ["--rename"; "--release"; "out"] = inr inv
      /\ renamedArtifactName inv = Some "--release"
      /\ destinationPath inv = Some "out"
      /\ passthroughArgs inv = []
      /\ mode inv = Release)
  /\ run (toy_spawn 0) toy_env ["--rename"; "--release"; "out"] []
     = (["/build/out"],
        [{| call_dir := "/build";
            call_argv := ["sh"; "/src/cargo.sh"; "build"] |};
         {| call_dir := "/build";
            call_argv := ["cp"; "-a"; "./release/--release";
                          "/build/out"] |}],
        0%Z)
  /\ (exists inv,
         classify ["--rename"; "--target"; "out"] = inr inv
         /\ renamedArtifactName inv = Some "--target"
         /\ destinationPath inv = Some "out"
         /\ passthroughArgs inv = []
         /\ mode inv = Debug)
  /\ run (toy_spawn 0) toy_env ["--rename"; "--target"; "out"] []
     = (["/build/out"],
        [{| call_dir := "/build";
            call_argv := ["sh"; "/src/cargo.sh"; "build"] |};
         {| call_dir := "/build";
            call_argv := ["cp"; "-a"; "./debug/--target";
                          "/build/out"] |}],
        0%Z).
Proof.
  split; [| split; [| split]].
  - eexists. split; [reflexivity |]. repeat split.
  - reflexivity.
  - eexists. split; [reflexivity |]. repeat split.
  - reflexivity.
Qed.

(** C8, as the specification words it: an argument list that ends with
    the rename flag is not always rejected.  In [--rename x --rename] the
    first flag takes [x], the last token is forwarded to the build, and
    the script ends with status 0. *)
Lemma rename_last_counterexample :
  last ["--rename"; "x"; "--rename"] "" = rename_flag
  /\ run (toy_spawn 0) toy_env ["--rename"; "x"; "--rename"] []
     = ([],
        [{| call_dir := "/build";
            call_argv := ["sh"; "/src/cargo.sh"; "build"; "--rename"] |}],
        0%Z).
Proof. split; reflexivity. Qed.

(** C8 (amended): when the first rename flag of the argument list is its
    last token, the script dies of an uncaught [IndexError]: it ends with
    status 1, has started no child process and leaves the world as it
    was. *)
Theorem rename_without_value_is_fatal {World : Type}
    (spawn : string -> list string -> World -> World * Z)
    (env : Env) (pre : list string) (w : World) :
  ~ In rename_flag pre ->
  classify (pre ++ [rename_flag]) = inl IndexError
  /\ run spawn env (pre ++ [rename_flag]) w = (w, [], 1%Z).
Proof.
  intros Hpre.
  assert (E : classify (pre ++ [rename_flag]) = inl IndexError).
  { unfold classify. now rewrite take_rename_last. }
  split; [exact E | exact (run_unclassified spawn env _ _ w E)].
Qed.

Lemma rename_without_value_is_fatal_witness :
  classify (["--release"; "/out/myapp"] ++ [rename_flag]) = inl IndexError
  /\ run (toy_spawn 0) toy_env (["--release"; "/out/myapp"] ++ [rename_flag])
         ["/out/myapp"]
     = (["/out/myapp"], [], 1%Z).
Proof.
  apply (rename_without_value_is_fatal (toy_spawn 0) toy_env
           ["--release"; "/out/myapp"] ["/out/myapp"]).
  simpl. intros [E | [E | []]]; discriminate E.
Defined.

Lemma find_positional_split (l : list string) (o : string) :
  find positional l = Some o ->
  exists pre post,
    l = pre ++ o :: post /\ Forall is_flag pre /\ positional o = true.
Proof.
  induction l as [|a l IH]; simpl; [discriminate |].
  destruct (positional a) eqn:Ea.
  - intros H. injection H as <-. exists [], l.
    repeat split; [constructor | assumption].
  - intros H. destruct (IH H) as (pre & post & -> & F & P).
    exists (a :: pre), post. repeat split; [now constructor | assumption].
Qed.

(** C10: when the first token without the flag prefix, in the list left
    by the rename step, is the empty string, that token is taken as the
    destination and removed from the pass-through arguments, but no copy
    is run: the build is the only child process, and the script ends with
    status 0 when the build does. *)
Theorem empty_destination_skips_copy {World : Type}
    (spawn : string -> list string -> World -> World * Z)
    (env : Env) (args rest : list string) (filename : option string)
    (w : World) :
  take_rename args = inr (filename, rest) ->
  find positional rest = Some "" ->
  exists pre post inv,
    rest = pre ++ "" :: post
    /\ Forall is_flag pre
    /\ classify args = inr inv
    /\ destinationPath inv = Some ""
    /\ passthroughArgs inv = pre ++ post
    /\ run spawn env args w
       = (fst (spawn (getcwd env) (build_argv env (pre ++ post)) w),
          [{| call_dir := getcwd env;
              call_argv := build_argv env (pre ++ post) |}],
          if Z.eqb (snd (spawn (getcwd env)
                           (build_argv env (pre ++ post)) w)) 0
          then 0%Z else 1%Z).
Proof.
  intros Hren Hfind.
  destruct (find_positional_split _ _ Hfind) as (pre & post & -> & F & P).
  set (inv := {| inv_binary_dir := binary_dir args; inv_filename := filename;
                 inv_out_path := Some ""; inv_args := pre ++ post |}).
  assert (C : classify args = inr inv).
  { apply classify_steps. exists (pre ++ "" :: post). simpl.
    split; [exact Hren |]. split; [| reflexivity].
    now apply take_out_path_first. }
  exists pre, post, inv. repeat split; try assumption.
  destruct (spawn (getcwd env) (build_argv env (pre ++ post)) w)
    as [w1 rc] eqn:Hb.
  simpl. destruct (Z.eqb_spec rc 0) as [-> | N].
  - exact (run_without_copy spawn env args inv w w1 C Hb eq_refl).
  - exact (run_build_fails spawn env args inv w w1 rc C Hb N).
Qed.

Lemma empty_destination_skips_copy_witness :
  exists pre post inv,
    [""; "--x"; "out"] = pre ++ "" :: post
    /\ Forall is_flag pre
    /\ classify ["--rename"; "app.bin"; ""; "--x"; "out"] = inr inv
    /\ destinationPath inv = Some ""
    /\ passthroughArgs inv = pre ++ post
    /\ run (toy_spawn 0) toy_env ["--rename"; "app.bin"; ""; "--x"; "out"] []
       = (fst (toy_spawn 0 "/build" (build_argv toy_env (pre ++ post)) []),
          [{| call_dir := "/build";
              call_argv := build_argv toy_env (pre ++ post) |}],
          if Z.eqb (snd (toy_spawn 0 "/build"
                           (build_argv toy_env (pre ++ post)) [])) 0
          then 0%Z else 1%Z).
Proof.
  exact (empty_destination_skips_copy (toy_spawn 0) toy_env
           ["--rename"; "app.bin"; ""; "--x"; "out"] [""; "--x"; "out"]
           (Some "app.bin") [] eq_refl eq_refl).
Defined.

Lemma or_else_spec (f : option string) (b : string) :
  or_else f b
  = match f with
    | Some n => if String.eqb n "" then b else n
    | None => b
    end.
Proof.
  destruct f as [[|a n]|]; reflexivity.
Qed.

(** C7, as the specification words it: a rename value that is present is
    not always the file name of the artifact.  For [--rename '' out] the
    rename value is the empty string and the copy takes [./debug/out],
    named after the destination. *)
Lemma artifact_filename_counterexample :
  exists inv w b c,
    classify ["--rename"; ""; "out"] = inr inv
    /\ renamedArtifactName inv = Some ""
    /\ destinationPath inv = Some "out"
    /\ run (toy_spawn 0) toy_env ["--rename"; ""; "out"] [] = (w, [b; c], 0%Z)
    /\ call_argv c = ["cp"; "-a"; "./debug/out"; "/build/out"]
    /\ spec_filename inv (absolute (getcwd toy_env) (of_string "out")) = ""
    /\ nth 2 (call_argv c) ""
       <> ("./" ++ mode_dir (mode inv) ++ "/"
             ++ spec_filename inv
                  (absolute (getcwd toy_env) (of_string "out")))%string
    /\ nth 2 (call_argv c) ""
       <> (mode_dir (mode inv) ++ "/"
             ++ spec_filename inv
                  (absolute (getcwd toy_env) (of_string "out")))%string.
Proof.
  do 4 eexists. split; [reflexivity |]. split; [reflexivity |].
  split; [reflexivity |]. split; [reflexivity |]. split; [reflexivity |].
  split; [reflexivity |]. split; discriminate.
Qed.

(** C7 (amended): when classification finds a destination that is not the
    empty string and the build succeeds, the script runs the build and
    then [cp -a ./{mode_dir}/{filename} {destination}], where the
    destination is made absolute against the current directory, mode_dir
    is [debug] or [release] per mode, and filename is the rename value if
    there is one and it is not empty, else the basename of the absolute
    destination. *)
Theorem artifact_source_path {World : Type}
    (spawn : string -> list string -> World -> World * Z)
    (env : Env) (args : list string) (inv : BuildInvocation) (d : string)
    (w : World) :
  classify args = inr inv ->
  destinationPath inv = Some d ->
  d <> "" ->
  snd (spawn (getcwd env) (build_argv env (passthroughArgs inv)) w) = 0%Z ->
  let dest := absolute (getcwd env) (of_string d) in
  let filename :=
    match renamedArtifactName inv with
    | Some n => if String.eqb n "" then name dest else n
    | None => name dest
    end in
  snd (fst (run spawn env args w))
  = [{| call_dir := getcwd env;
        call_argv := build_argv env (passthroughArgs inv) |};
     {| call_dir := getcwd env;
        call_argv := ["cp"; "-a";
                      ("./" ++ mode_dir (mode inv) ++ "/" ++ filename)%string;
                      to_string dest] |}].
Proof.
  intros H Hd Hne Hrc dest filename.
  unfold destinationPath, passthroughArgs, renamedArtifactName in *.
  destruct (spawn (getcwd env) (build_argv env (inv_args inv)) w)
    as [w1 rc] eqn:Hb.
  simpl in Hrc. subst rc.
  assert (Hc : copy_command env inv
               = Some ["cp"; "-a";
                       ("./" ++ mode_dir (mode inv) ++ "/" ++ filename)%string;
                       to_string dest]).
  { unfold copy_command. rewrite Hd.
    destruct d as [|a d']; [congruence |]. simpl truthy. cbv iota.
    unfold copy_argv. rewrite or_else_spec.
    pose proof H as H'. apply classify_steps in H' as (_ & _ & _ & Hdir).
    destruct (mode_of_classified _ _ Hdir) as [_ <-]. reflexivity. }
  destruct (spawn (getcwd env)
              ["cp"; "-a";
               ("./" ++ mode_dir (mode inv) ++ "/" ++ filename)%string;
               to_string dest] w1) as [w2 rc2] eqn:Hcp.
  now rewrite (run_with_copy spawn env args inv w w1 w2 _ rc2 H Hb Hc Hcp).
Qed.

Lemma artifact_source_path_witness :
  snd (fst (run (toy_spawn 0) toy_env
              ["--release"; "--rename"; "app.bin"; "out/myapp"] []))
  = [{| call_dir := "/build";
        call_argv := ["sh"; "/src/cargo.sh"; "build"; "--release"] |};
     {| call_dir := "/build";
        call_argv := ["cp"; "-a"; "./release/app.bin";
                      "/build/out/myapp"] |}].
Proof.
  apply (artifact_source_path (toy_spawn 0) toy_env
           ["--release"; "--rename"; "app.bin"; "out/myapp"]
           {| inv_binary_dir := "release"; inv_filename := Some "app.bin";
              inv_out_path := Some "out/myapp";
              inv_args := ["--release"] |}
           "out/myapp" [] eq_refl eq_refl).
  - discriminate.
  - reflexivity.
Defined.

(** C3, as the specification words it: the build does not run in the
    directory of the tool, and what the script does depends on the
    current directory of its caller.  With the tool in [/src] and the
    caller in [/build], both child processes run in [/build] and the
    artifact goes to [/build/out]; with the caller in [/tmp] they run in
    [/tmp] and it goes to [/tmp/out]. *)
Lemma working_directory_counterexample :
  exists w b c,
    run (toy_spawn 0) toy_env ["out"] [] = (w, [b; c], 0%Z)
    /\ to_string (source_dir toy_env) = "/src"
    /\ call_argv b = ["sh"; "/src/cargo.sh"; "build"]
    /\ call_dir b = "/build"
    /\ call_dir b <> to_string (source_dir toy_env)
    /\ call_dir c = "/build"
    /\ call_argv c = ["cp"; "-a"; "./debug/out"; "/build/out"]
    /\ run (toy_spawn 0)
           {| script_file := script_file toy_env; getcwd := "/tmp" |}
           ["out"] []
       = (["/tmp/out"],
          [{| call_dir := "/tmp";
              call_argv := ["sh"; "/src/cargo.sh"; "build"] |};
           {| call_dir := "/tmp";
              call_argv := ["cp"; "-a"; "./debug/out"; "/tmp/out"] |}],
          0%Z).
Proof.
  do 3 eexists. split; [reflexivity |]. repeat split. discriminate.
Qed.

(** C3 (amended): every child process of the script runs in the current
    directory of the script's own process, which is the caller's.  A
    child is either the build, whose script is addressed inside the
    directory of the tool as [{source_dir}/cargo.sh], or the copy, whose
    artifact path [./{binary_dir}/{filename}] is relative to that current
    directory and whose destination is made absolute against it. *)
Theorem children_run_in_current_directory {World : Type}
    (spawn : string -> list string -> World -> World * Z)
    (env : Env) (args : list string) (w : World) :
  Forall
    (fun c =>
       call_dir c = getcwd env
       /\ ((exists passthrough,
              call_argv c
              = "sh" :: (to_string (source_dir env) ++ "/cargo.sh")%string
                  :: "build" :: passthrough)
           \/ (exists filename d,
                 call_argv c
                 = ["cp"; "-a";
                    ("./" ++ binary_dir args ++ "/" ++ filename)%string;
                    to_string (absolute (getcwd env) (of_string d))])))
    (snd (fst (run spawn env args w))).
Proof.
  destruct (classify args) as [e | inv] eqn:H.
  - rewrite (run_unclassified spawn env args e w H). constructor.
  - assert (B : call_dir {| call_dir := getcwd env;
                            call_argv := build_argv env (inv_args inv) |}
                = getcwd env
                /\ ((exists passthrough,
                       build_argv env (inv_args inv)
                       = "sh" :: (to_string (source_dir env) ++ "/cargo.sh")%string
                           :: "build" :: passthrough)
                    \/ (exists filename d,
                          build_argv env (inv_args inv)
                          = ["cp"; "-a";
                             ("./" ++ binary_dir args ++ "/" ++ filename)%string;
                             to_string (absolute (getcwd env) (of_string d))]))).
    { split; [reflexivity |]. left. now exists (inv_args inv). }
    destruct (spawn (getcwd env) (build_argv env (inv_args inv)) w)
      as [w1 rc] eqn:Hb.
    destruct (Z.eqb_spec rc 0) as [-> | N].
    + destruct (copy_command env inv) as [c|] eqn:Hc.
      * destruct (spawn (getcwd env) c w1) as [w2 rc2] eqn:Hcp.
        rewrite (run_with_copy spawn env args inv w w1 w2 c rc2 H Hb Hc Hcp).
        simpl. constructor; [exact B |]. constructor; [| constructor].
        split; [reflexivity |]. right. simpl.
        unfold copy_command in Hc.
        destruct (inv_out_path inv) as [s|]; [| discriminate].
        destruct (truthy s); [| discriminate].
        injection Hc as <-.
        apply classify_steps in H as (_ & _ & _ & ->).
        exists (or_else (inv_filename inv)
                  (name (absolute (getcwd env) (of_string s)))), s.
        reflexivity.
      * rewrite (run_without_copy spawn env args inv w w1 H Hb Hc).
        simpl. constructor; [exact B | constructor].
    + rewrite (run_build_fails spawn env args inv w w1 rc H Hb N).
      simpl. constructor; [exact B | constructor].
Qed.

(** ** Further properties of the classifier *)

Lemma Subseq_refl (l : list string) : Subseq l l.
Proof.
  induction l; constructor; assumption.
Qed.

Lemma Subseq_trans (l1 l2 l3 : list string) :
  Subseq l1 l2 -> Subseq l2 l3 -> Subseq l1 l3.
Proof.
  intros H12 H23. revert l1 H12.
  induction H23 as [| x l2 l3 _ IH | x l2 l3 _ IH]; intros l1 H12.
  - exact H12.
  - constructor. now apply IH.
  - inversion H12; subst; constructor; now apply IH.
Qed.

Lemma Subseq_drop (pre post other : list string) :
  Subseq (pre ++ post) (pre ++ other ++ post).
Proof.
  induction pre as [|a pre IH]; simpl.
  - induction other as [|b other IH]; simpl.
    + apply Subseq_refl.
    + now constructor.
  - now constructor.
Qed.

(** X1: the classifier raises in one case only.  When it raises, the
    exception is the [IndexError] of the second [pop], and the first
    rename flag of the argument list is its last token; the [ValueError]
    of [args.index(out_path)] never occurs. *)
Theorem classify_raises_only_for_rename_last (args : list string)
    (e : exn) :
  classify args = inl e ->
  e = IndexError
  /\ exists pre, args = pre ++ [rename_flag] /\ ~ In rename_flag pre.
Proof.
  intros H. unfold classify in H.
  destruct (rename_shape args)
    as [N | [(pre & -> & N) | (pre & v & post & -> & N)]].
  - rewrite (take_rename_absent _ N) in H.
    destruct (take_out_path_total args) as (o & r & E).
    rewrite E in H. discriminate.
  - rewrite (take_rename_last _ N) in H. injection H as <-.
    split; [reflexivity |]. now exists pre.
  - rewrite (take_rename_pair _ _ _ N) in H.
    destruct (take_out_path_total (pre ++ post)) as (o & r & E).
    rewrite E in H. discriminate.
Qed.

Lemma classify_raises_only_for_rename_last_witness :
  IndexError = IndexError
  /\ exists pre,
       ["--release"; "out"; "--rename"] = pre ++ [rename_flag]
       /\ ~ In rename_flag pre.
Proof.
  exact (classify_raises_only_for_rename_last
           ["--release"; "out"; "--rename"] IndexError eq_refl).
Defined.

(** X2: the arguments forwarded to the build are arguments of the command
    line in their original order: the classifier only leaves tokens out,
    it never reorders or adds one. *)
Theorem passthrough_keeps_order (args : list string)
    (inv : BuildInvocation) :
  classify args = inr inv -> Subseq (passthroughArgs inv) args.
Proof.
  intros H. apply classify_steps in H as (rest & Hren & Hout & _).
  unfold passthroughArgs. apply Subseq_trans with (l2 := rest).
  - apply take_out_path_inv in Hout
      as [(_ & -> & _) | (pre & d & post & -> & _ & _ & _ & ->)].
    + apply Subseq_refl.
    + exact (Subseq_drop pre post [d]).
  - apply take_rename_inv in Hren
      as [(_ & -> & _) | (pre & v & post & -> & _ & _ & ->)].
    + apply Subseq_refl.
    + exact (Subseq_drop pre post [rename_flag; v]).
Qed.

Lemma passthrough_keeps_order_witness :
  Subseq ["--release"; "--locked"; "extra"]
         ["--release"; "--rename"; "app.bin"; "--locked"; "out"; "extra"].
Proof.
  exact (passthrough_keeps_order
           ["--release"; "--rename"; "app.bin"; "--locked"; "out"; "extra"]
           {| inv_binary_dir := "release"; inv_filename := Some "app.bin";
              inv_out_path := Some "out";
              inv_args := ["--release"; "--locked"; "extra"] |}
           eq_refl).
Defined.

(** X3: a destination never starts with two dashes, and when the
    classifier finds no destination every forwarded argument starts with
    two dashes. *)
Theorem destination_is_not_a_flag (args : list string)
    (inv : BuildInvocation) :
  classify args = inr inv ->
  match destinationPath inv with
  | Some d => startswith d flag_prefix = false
  | None =>
      Forall (fun a => startswith a flag_prefix = true) (passthroughArgs inv)
  end.
Proof.
  intros H. apply classify_steps in H as (rest & _ & Hout & _).
  unfold destinationPath, passthroughArgs.
  apply take_out_path_inv in Hout
    as [(-> & -> & F) | (pre & d & post & -> & _ & P & -> & _)].
  - eapply Forall_impl; [| exact F].
    intros a Ha. unfold is_flag, positional in Ha.
    now apply negb_false_iff in Ha.
  - unfold positional in P. now apply negb_true_iff in P.
Qed.

Lemma destination_is_not_a_flag_witness :
  Forall (fun a => startswith a flag_prefix = true)
         ["--release"; "--target=x86_64"].
Proof.
  exact (destination_is_not_a_flag
           ["--release"; "--rename"; "app.bin"; "--target=x86_64"]
           {| inv_binary_dir := "release"; inv_filename := Some "app.bin";
              inv_out_path := None;
              inv_args := ["--release"; "--target=x86_64"] |}
           eq_refl).
Defined.

(** X4: without a rename flag, the first argument that does not start
    with two dashes is the destination and is the only token taken out:
    the arguments before and after it, later positional ones included,
    are forwarded as they are. *)
Theorem first_positional_is_destination (pre post : list string)
    (d : string) :
  ~ In rename_flag (pre ++ d :: post) ->
  Forall is_flag pre ->
  startswith d flag_prefix = false ->
  classify (pre ++ d :: post)
  = inr {| inv_binary_dir := binary_dir (pre ++ d :: post);
           inv_filename := None;
           inv_out_path := Some d;
           inv_args := pre ++ post |}.
Proof.
  intros N F P. unfold classify.
  rewrite (take_rename_absent _ N), (take_out_path_first pre post d F);
    [reflexivity |].
  unfold positional. now rewrite P.
Qed.

Lemma first_positional_is_destination_witness :
  classify (["--release"] ++ "out" :: ["--locked"; "later"])
  = inr {| inv_binary_dir := "release";
           inv_filename := None;
           inv_out_path := Some "out";
           inv_args := ["--release"] ++ ["--locked"; "later"] |}.
Proof.
  apply (first_positional_is_destination
           ["--release"] ["--locked"; "later"] "out").
  - simpl. intros [E | [E | [E | [E | []]]]]; discriminate E.
  - repeat constructor.
  - reflexivity.
Defined.

(** ** Further properties of a run *)

(** X5: when the classifier finds no destination, the build is the only
    child process the script starts, the world is the one the build
    leaves, and the script ends with status 0 if the build does and with
    status 1 otherwise. *)
Theorem no_destination_no_copy {World : Type}
    (spawn : string -> list string -> World -> World * Z)
    (env : Env) (args : list string) (inv : BuildInvocation) (w : World) :
  classify args = inr inv ->
  destinationPath inv = None ->
  run spawn env args w
  = (fst (spawn (getcwd env) (build_argv env (passthroughArgs inv)) w),
     [{| call_dir := getcwd env;
         call_argv := build_argv env (passthroughArgs inv) |}],
     if Z.eqb (snd (spawn (getcwd env)
                      (build_argv env (passthroughArgs inv)) w)) 0
     then 0%Z else 1%Z).
Proof.
  unfold destinationPath, passthroughArgs. intros H Hd.
  destruct (spawn (getcwd env) (build_argv env (inv_args inv)) w)
    as [w1 rc] eqn:Hb.
  simpl. destruct (Z.eqb_spec rc 0) as [-> | N].
  - apply (run_without_copy spawn env args inv w w1 H Hb).
    unfold copy_command. now rewrite Hd.
  - exact (run_build_fails spawn env args inv w w1 rc H Hb N).
Qed.

Lemma no_destination_no_copy_witness :
  run (toy_spawn 0) toy_env ["--rename"; "app.bin"; "--target=x86_64"] []
  = ([],
     [{| call_dir := "/build";
         call_argv := ["sh"; "/src/cargo.sh"; "build"; "--target=x86_64"] |}],
     0%Z).
Proof.
  exact (no_destination_no_copy (toy_spawn 0) toy_env
           ["--rename"; "app.bin"; "--target=x86_64"]
           {| inv_binary_dir := "debug"; inv_filename := Some "app.bin";
              inv_out_path := None; inv_args := ["--target=x86_64"] |}
           [] eq_refl eq_refl).
Defined.

(** X6: when the build succeeds and there is a copy to run, the copy is
    the second and last child process, it starts in the world the build
    left, and its status decides the exit status: 0 if the copy ends with
    0, and 1 otherwise. *)
Theorem copy_follows_build {World : Type}
    (spawn : string -> list string -> World -> World * Z)
    (env : Env) (args : list string) (inv : BuildInvocation)
    (c : list string) (w : World) :
  classify args = inr inv ->
  snd (spawn (getcwd env) (build_argv env (passthroughArgs inv)) w) = 0%Z ->
  copy_command env inv = Some c ->
  let built :=
    fst (spawn (getcwd env) (build_argv env (passthroughArgs inv)) w) in
  run spawn env args w
  = (fst (spawn (getcwd env) c built),
     [{| call_dir := getcwd env;
         call_argv := build_argv env (passthroughArgs inv) |};
      {| call_dir := getcwd env; call_argv := c |}],
     if Z.eqb (snd (spawn (getcwd env) c built)) 0 then 0%Z else 1%Z).
Proof.
  intros H Hrc Hc built. unfold passthroughArgs in *.
  destruct (spawn (getcwd env) (build_argv env (inv_args inv)) w)
    as [w1 rc] eqn:Hb.
  simpl in Hrc, built. subst rc built.
  destruct (spawn (getcwd env) c w1) as [w2 rc2] eqn:Hcp.
  exact (run_with_copy spawn env args inv w w1 w2 c rc2 H Hb Hc Hcp).
Qed.

Lemma copy_follows_build_witness :
  run (toy_spawn_cp 1) toy_env ["--release"; "out/myapp"] []
  = ([],
     [{| call_dir := "/build";
         call_argv := ["sh"; "/src/cargo.sh"; "build"; "--release"] |};
      {| call_dir := "/build";
         call_argv := ["cp"; "-a"; "./release/myapp";
                       "/build/out/myapp"] |}],
     1%Z).
Proof.
  exact (copy_follows_build (toy_spawn_cp 1) toy_env
           ["--release"; "out/myapp"]
           {| inv_binary_dir := "release"; inv_filename := None;
              inv_out_path := Some "out/myapp";
              inv_args := ["--release"] |}
           ["cp"; "-a"; "./release/myapp"; "/build/out/myapp"]
           [] eq_refl eq_refl eq_refl).
Defined.

(** X7: the script ends with status 0 exactly when the classifier accepts
    the arguments, the build ends with status 0 and the copy, if there is
    one to run, ends with status 0 too. *)
Theorem exit_status_zero_iff {World : Type}
    (spawn : string -> list string -> World -> World * Z)
    (env : Env) (args : list string) (w : World) :
  snd (run spawn env args w) = 0%Z
  <-> exists inv,
        classify args = inr inv
        /\ snd (spawn (getcwd env) (build_argv env (passthroughArgs inv)) w)
           = 0%Z
        /\ match copy_command env inv with
           | Some c =>
               snd (spawn (getcwd env) c
                      (fst (spawn (getcwd env)
                              (build_argv env (passthroughArgs inv)) w)))
               = 0%Z
           | None => True
           end.
Proof.
  unfold passthroughArgs.
  destruct (classify args) as [e | inv] eqn:H.
  - rewrite (run_unclassified spawn env args e w H). simpl. split.
    + discriminate.
    + intros (inv & E & _). discriminate E.
  - destruct (spawn (getcwd env) (build_argv env (inv_args inv)) w)
      as [w1 rc] eqn:Hb.
    destruct (Z.eqb_spec rc 0) as [-> | N].
    + destruct (copy_command env inv) as [c|] eqn:Hc.
      * destruct (spawn (getcwd env) c w1) as [w2 rc2] eqn:Hcp.
        rewrite (run_with_copy spawn env args inv w w1 w2 c rc2 H Hb Hc Hcp).
        simpl. split.
        -- intros E. exists inv. rewrite Hb, Hc. simpl. rewrite Hcp. simpl.
           repeat split. destruct (Z.eqb_spec rc2 0); [assumption | discriminate].
        -- intros (inv' & E & _ & Hok). injection E as <-.
           rewrite Hb, Hc in Hok. simpl in Hok. rewrite Hcp in Hok.
           simpl in Hok. now subst rc2.
      * rewrite (run_without_copy spawn env args inv w w1 H Hb Hc).
        simpl. split; [| reflexivity].
        intros _. exists inv. rewrite Hb, Hc. now repeat split.
    + rewrite (run_build_fails spawn env args inv w w1 rc H Hb N).
      simpl. split; [discriminate |].
      intros (inv' & E & Hrc & _). injection E as <-.
      rewrite Hb in Hrc. simpl in Hrc. contradiction.
Qed.

(** ** Properties of the paths of the copy *)

Lemma last_app_nonempty (a b : list string) (d : string) :
  b <> [] -> last (a ++ b) d = last b d.
Proof.
  intros Hb. induction a as [|x a IH]; simpl; [reflexivity |].
  rewrite IH. destruct (a ++ b) eqn:E; [| reflexivity].
  apply app_eq_nil in E. tauto.
Qed.

Lemma splitroot_cases (s : string) :
  splitroot s = "" \/ splitroot s = "/" \/ splitroot s = "//".
Proof.
  unfold splitroot. destruct (leading_slashes s) as [|[|[|n]]]; tauto.
Qed.

Lemma split_nonempty (s : string) : split s <> [].
Proof.
  destruct s as [|c s]; simpl; [discriminate |].
  destruct (Ascii.eqb c "/"); [discriminate |].
  destruct (split s); discriminate.
Qed.

Lemma split_trailing_slash (s : string) :
  split (s ++ "/")%string = split s ++ [""].
Proof.
  induction s as [|c s IH]; simpl; [reflexivity |].
  destruct (Ascii.eqb c "/"); rewrite IH; [reflexivity |].
  pose proof (split_nonempty s) as N.
  destruct (split s); [contradiction | reflexivity].
Qed.

(** X8: without a rename value, when the destination token has at least
    one path component, the artifact copied is [./{binary_dir}/] followed
    by the last component of the token, whatever the current directory. *)
Theorem artifact_named_after_destination (env : Env) (dir d : string) :
  parts (of_string d) <> [] ->
  copy_argv env dir None d
  = ["cp"; "-a";
     ("./" ++ dir ++ "/" ++ last (parts (of_string d)) "")%string;
     to_string (absolute (getcwd env) (of_string d))].
Proof.
  intros Hd. unfold copy_argv, or_else, name. do 3 f_equal.
  f_equal. f_equal. f_equal.
  unfold absolute. destruct (is_absolute (of_string d)); [reflexivity |].
  cbn [parts]. now apply last_app_nonempty.
Qed.

Lemma artifact_named_after_destination_witness :
  copy_argv toy_env "debug" None "out/bin/./squeekboard/"
  = ["cp"; "-a"; "./debug/squeekboard"; "/build/out/bin/squeekboard"].
Proof.
  apply (artifact_named_after_destination toy_env "debug"
           "out/bin/./squeekboard/").
  discriminate.
Defined.

(** X9: without a rename value, when the destination token is relative
    and has no path component, as [.] has none, the destination is the
    current directory itself and the artifact copied is named after the
    current directory. *)
Theorem destination_without_component (env : Env) (dir d : string) :
  parts (of_string d) = [] ->
  is_absolute (of_string d) = false ->
  copy_argv env dir None d
  = ["cp"; "-a";
     ("./" ++ dir ++ "/" ++ name (of_string (getcwd env)))%string;
     to_string (of_string (getcwd env))].
Proof.
  intros Hd Ha. unfold copy_argv, or_else, absolute.
  rewrite Ha, Hd, app_nil_r.
  now destruct (of_string (getcwd env)).
Qed.

Lemma destination_without_component_witness :
  copy_argv toy_env "debug" None "."
  = ["cp"; "-a"; "./debug/build"; "/build"].
Proof.
  exact (destination_without_component toy_env "debug" "." eq_refl eq_refl).
Defined.

(** X10: when the current directory is an absolute path, the destination
    handed to [cp] is an absolute path, whatever the destination token. *)
Theorem copy_destination_is_absolute (env : Env) (dir d : string)
    (filename : option string) :
  is_absolute (of_string (getcwd env)) = true ->
  exists rest,
    nth 3 (copy_argv env dir filename d) "" = String "/"%char rest.
Proof.
  intros Hcwd. unfold copy_argv. cbn [nth].
  assert (Hroot : forall s, is_absolute (of_string s) = true ->
                    root (of_string s) = "/" \/ root (of_string s) = "//").
  { intros s Hs. unfold is_absolute in Hs. cbn [of_string root] in *.
    destruct (splitroot_cases s) as [R | R]; [| exact R].
    rewrite R in Hs. discriminate. }
  assert (Hstr : forall p, root p = "/" \/ root p = "//" ->
                   exists rest, to_string p = String "/"%char rest).
  { intros p [R | R]; unfold to_string; rewrite R; simpl; eauto. }
  apply Hstr. unfold absolute.
  destruct (is_absolute (of_string d)) eqn:E.
  - now apply Hroot.
  - cbn [root]. now apply Hroot.
Qed.

Lemma copy_destination_is_absolute_witness :
  exists rest,
    nth 3 (copy_argv toy_env "release" (Some "app.bin") "out/myapp") ""
    = String "/"%char rest.
Proof.
  exact (copy_destination_is_absolute toy_env "release" "out/myapp"
           (Some "app.bin") eq_refl).
Defined.

(** X11: a slash added at the end of a destination token that is not
    empty does not change the artifact that is copied. *)
Theorem trailing_slash_keeps_artifact (env : Env) (dir d : string)
    (filename : option string) :
  d <> "" ->
  nth 2 (copy_argv env dir filename (d ++ "/")) ""
  = nth 2 (copy_argv env dir filename d) "".
Proof.
  intros Hd. unfold copy_argv. cbn [nth]. do 3 f_equal.
  unfold name. f_equal.
  assert (Hparts : parts (of_string (d ++ "/")) = parts (of_string d)).
  { unfold of_string. cbn [parts].
    rewrite split_trailing_slash, filter_app. simpl. apply app_nil_r. }
  assert (Habs : is_absolute (of_string (d ++ "/"))
                 = is_absolute (of_string d)).
  { unfold is_absolute, of_string, splitroot. cbn [root].
    destruct d as [|c d']; [contradiction |]. simpl.
    destruct (Ascii.eqb c "/"); [| reflexivity].
    destruct (leading_slashes (d' ++ "/")) as [|[|n]],
             (leading_slashes d') as [|[|m]]; reflexivity. }
  unfold absolute. rewrite Habs.
  destruct (is_absolute (of_string d)); cbn [parts]; now rewrite Hparts.
Qed.

Lemma trailing_slash_keeps_artifact_witness :
  nth 2 (copy_argv toy_env "debug" None ("out/myapp" ++ "/")) ""
  = nth 2 (copy_argv toy_env "debug" None "out/myapp") "".
Proof.
  apply (trailing_slash_keeps_artifact toy_env "debug" "out/myapp" None).
  discriminate.
Defined.

(** X12: when the tool is addressed by an absolute path and the
    destination token is absolute or missing, the commands of the build
    and of the copy are the same in every current directory. *)
Theorem commands_independent_of_cwd (env env' : Env)
    (inv : BuildInvocation) :
  script_file env' = script_file env ->
  is_absolute (of_string (script_file env)) = true ->
  match inv_out_path inv with
  | Some d => is_absolute (of_string d) = true
  | None => True
  end ->
  build_argv env' (inv_args inv) = build_argv env (inv_args inv)
  /\ copy_command env' inv = copy_command env inv.
Proof.
  intros Hfile Habs Hd. split.
  - unfold build_argv, source_dir, absolute. now rewrite Hfile, Habs.
  - unfold copy_command. destruct (inv_out_path inv) as [d|]; [| reflexivity].
    destruct (truthy d); [| reflexivity].
    unfold copy_argv, absolute. now rewrite Hd.
Qed.

Lemma commands_independent_of_cwd_witness :
  build_argv {| script_file := "/src/cargo_build.py"; getcwd := "/tmp" |}
             ["--release"]
  = build_argv toy_env ["--release"]
  /\ copy_command
       {| script_file := "/src/cargo_build.py"; getcwd := "/tmp" |}
       {| inv_binary_dir := "release"; inv_filename := None;
          inv_out_path := Some "/out/myapp"; inv_args := ["--release"] |}
     = copy_command toy_env
         {| inv_binary_dir := "release"; inv_filename := None;
            inv_out_path := Some "/out/myapp"; inv_args := ["--release"] |}.
Proof.
  exact (commands_independent_of_cwd toy_env
           {| script_file := "/src/cargo_build.py"; getcwd := "/tmp" |}
           {| inv_binary_dir := "release"; inv_filename := None;
              inv_out_path := Some "/out/myapp"; inv_args := ["--release"] |}
           eq_refl eq_refl eq_refl).
Defined.

(** ** The scenarios of the specification *)

Example classify_release_rename :
  classify ["--release"; "--rename"; "app.bin"; "/out/myapp"]
  = inr {| inv_binary_dir := "release"; inv_filename := Some "app.bin";
           inv_out_path := Some "/out/myapp"; inv_args := ["--release"] |}.
Proof. reflexivity. Qed.

Example classify_target :
  classify ["--target=x86_64"]
  = inr {| inv_binary_dir := "debug"; inv_filename := None;
           inv_out_path := None; inv_args := ["--target=x86_64"] |}.
Proof. reflexivity. Qed.

Example classify_rename_last :
  classify ["--x"; "--rename"] = inl IndexError.
Proof. reflexivity. Qed.

(** ** Facts about the matcher *)

Module RegexFacts.
Import Regex.

Lemma every_app (p : ascii -> bool) (a b : string) :
  every p (a ++ b)%string = every p a && every p b.
Proof.
  induction a as [|c a IH]; simpl; [reflexivity |].
  now rewrite IH, andb_assoc.
Qed.

(** The repetition fails when the continuation fails at every split it
    can reach. *)
Lemma star_fails {A : Type} (p : ascii -> bool) (s : string)
    (k : string -> string -> option A) :
  (forall t rest, s = (t ++ rest)%string -> every p t = true ->
                  k t rest = None) ->
  star p s k = None.
Proof.
  revert k. induction s as [|c s IH]; intros k Hk; simpl.
  - now apply (Hk "" "").
  - assert (E : k "" (String c s) = None) by now apply Hk.
    destruct (p c) eqn:Hc; [| exact E].
    rewrite IH; [exact E |].
    intros t rest -> Ht. apply (Hk (String c t) rest); [reflexivity |].
    simpl. now rewrite Hc.
Qed.

(** The repetition stops after [v] when the continuation accepts there
    and fails after every longer run. *)
Lemma star_takes {A : Type} (p : ascii -> bool) (v w : string)
    (k : string -> string -> option A) (r : A) :
  every p v = true ->
  k v w = Some r ->
  (forall t rest, w = (t ++ rest)%string -> t <> "" -> every p t = true ->
                  k (v ++ t)%string rest = None) ->
  star p (v ++ w) k = Some r.
Proof.
  revert k. induction v as [|c v IH]; intros k Hv Hk Hlong.
  - simpl in *. destruct w as [|c w]; simpl; [exact Hk |].
    destruct (p c) eqn:Hc; [| exact Hk].
    rewrite star_fails; [exact Hk |].
    intros t rest -> Ht. apply (Hlong (String c t) rest); [reflexivity | discriminate |].
    simpl. now rewrite Hc.
  - simpl in Hv. apply andb_true_iff in Hv as [Hc Hv]. simpl. rewrite Hc.
    rewrite (IH (fun t rest => k (String c t) rest)); auto.
Qed.

(** The repetition succeeds when the continuation accepts everywhere. *)
Lemma star_always {A : Type} (p : ascii -> bool) (s : string)
    (k : string -> string -> option A) (r : A) :
  (forall t rest, k t rest = Some r) -> star p s k = Some r.
Proof.
  revert k. induction s as [|c s IH]; intros k Hk; simpl; [apply Hk |].
  destruct (p c); [| apply Hk].
  now rewrite IH.
Qed.

(** [c+] takes a whole run of [c] that is followed by something else. *)
Lemma plus_takes {A : Type} (p : ascii -> bool) (d w : string)
    (cap : option string)
    (k : option string -> string -> string -> option A) (r : A) :
  d <> "" ->
  every p d = true ->
  starts_in p w = false ->
  k cap d w = Some r ->
  matches (Plus p) cap (d ++ w) k = Some r.
Proof.
  intros Hd Hp Hw Hk. destruct d as [|c d]; [contradiction |].
  simpl in Hp. apply andb_true_iff in Hp as [Hc Hp].
  simpl. rewrite Hc.
  apply star_takes; [exact Hp | exact Hk |].
  intros t rest -> Ht Hpt. exfalso.
  destruct t as [|a t]; [contradiction |].
  simpl in Hpt. apply andb_true_iff in Hpt as [Ha _].
  simpl in Hw. congruence.
Qed.

(** A pattern that cannot start with a character outside [p] has no
    match in a text without characters of [p]. *)
Lemma search_none (r : regex) (p : ascii -> bool) (s : string) :
  (forall t, starts_in p t = false -> match_here r t = None) ->
  every (non p) s = true ->
  search r s = None.
Proof.
  intros Hr. induction s as [|c s IH]; intros Hs; simpl.
  - now rewrite Hr.
  - simpl in Hs. apply andb_true_iff in Hs as [Hc Hs].
    rewrite Hr; [now apply IH |].
    simpl. unfold non in Hc. now apply negb_true_iff in Hc.
Qed.

(** Such a pattern is looked for after a prefix without characters of
    [p]. *)
Lemma search_skips (r : regex) (p : ascii -> bool) (pre s : string) :
  (forall t, starts_in p t = false -> match_here r t = None) ->
  every (non p) pre = true ->
  search r (pre ++ s) = search r s.
Proof.
  intros Hr. induction pre as [|c pre IH]; intros Hs; [reflexivity |].
  simpl in Hs. apply andb_true_iff in Hs as [Hc Hs].
  cbn [append search]. rewrite Hr; [now apply IH |].
  simpl. unfold non in Hc. now apply negb_true_iff in Hc.
Qed.

End RegexFacts.

(** ** Facts about the tag check *)

Module CheckReleaseFacts.
Import Regex RegexFacts CheckRelease.

Lemma version_re_needs_open (t : string) :
  starts_in (lit "("%char) t = false -> match_here version_re t = None.
Proof.
  destruct t as [|c t]; [reflexivity |]. cbn [starts_in]. intros H.
  unfold match_here, version_re. cbn [matches]. now rewrite H.
Qed.

Lemma number_re_needs_digit (t : string) :
  starts_in digit t = false -> match_here number_re t = None.
Proof.
  destruct t as [|c t]; [reflexivity |]. cbn [starts_in]. intros H.
  unfold match_here, number_re, Plus. cbn [matches]. now rewrite H.
Qed.

Lemma non_starts (p : ascii -> bool) (s : string) :
  every (non p) s = true -> starts_in p s = false.
Proof.
  destruct s as [|c s]; [reflexivity |]. simpl. unfold non.
  intros H. apply andb_true_iff in H as [H _]. now apply negb_true_iff.
Qed.

Lemma version_re_between (v post : string) :
  every dot v = true ->
  every (non (lit ")"%char)) post = true ->
  match_here version_re ("(" ++ v ++ ")" ++ post) = Some (Some v).
Proof.
  intros Hv Hpost. unfold match_here, version_re. cbn [matches append].
  change (lit "(" "(") with true. cbv iota.
  apply (star_takes dot v (String ")" post)); [exact Hv | reflexivity |].
  intros t rest E Ht _. destruct t as [|a t]; [contradiction |].
  cbn [append] in E. injection E as _ ->.
  rewrite every_app in Hpost. apply andb_true_iff in Hpost as [_ Hrest].
  apply non_starts in Hrest.
  destruct rest as [|c rest]; [reflexivity |]. cbn [starts_in] in Hrest.
  now rewrite Hrest.
Qed.

Lemma version_re_unclosed (s : string) :
  every (non (lit ")"%char)) s = true -> match_here version_re s = None.
Proof.
  intros Hs. destruct s as [|c s]; [reflexivity |].
  unfold match_here, version_re. cbn [matches].
  destruct (lit "(" c); [| reflexivity].
  apply star_fails. intros t rest -> _.
  simpl in Hs. apply andb_true_iff in Hs as [_ Hs].
  rewrite every_app in Hs. apply andb_true_iff in Hs as [_ Hrest].
  apply non_starts in Hrest.
  destruct rest as [|a rest]; [reflexivity |]. cbn [starts_in] in Hrest.
  now rewrite Hrest.
Qed.

Lemma search_unclosed (s : string) :
  every (non (lit ")"%char)) s = true -> search version_re s = None.
Proof.
  induction s as [|c s IH]; intros Hs.
  - reflexivity.
  - cbn [search]. rewrite (version_re_unclosed _ Hs).
    simpl in Hs. apply andb_true_iff in Hs as [_ Hs]. now apply IH.
Qed.

Lemma number_re_at_number (d1 d2 d3 rest : string) :
  d1 <> "" -> d2 <> "" -> d3 <> "" ->
  every digit d1 = true -> every digit d2 = true -> every digit d3 = true ->
  starts_in digit rest = false ->
  match_here number_re (d1 ++ "." ++ d2 ++ "." ++ d3 ++ rest)
  = Some (Some (d1 ++ "." ++ d2 ++ "." ++ d3)%string).
Proof.
  intros N1 N2 N3 H1 H2 H3 Hrest.
  unfold match_here, number_re. cbn [matches].
  apply plus_takes; [exact N1 | exact H1 | reflexivity |].
  cbn [append matches]. change (lit "." ".") with true. cbv iota.
  apply plus_takes; [exact N2 | exact H2 | reflexivity |].
  cbn [append matches]. change (lit "." ".") with true. cbv iota.
  apply plus_takes; [exact N3 | exact H3 | exact Hrest |].
  now apply star_always.
Qed.


Lemma rstrip_whitespace (b : string) :
  every whitespace b = true -> rstrip b = "".
Proof.
  induction b as [|c b IH]; simpl; [reflexivity |].
  intros H. apply andb_true_iff in H as [Hc Hb].
  now rewrite (IH Hb), Hc.
Qed.

Lemma rstrip_trailing (s b : string) :
  every whitespace b = true -> rstrip (s ++ b) = rstrip s.
Proof.
  intros Hb. induction s as [|c s IH]; simpl.
  - now apply rstrip_whitespace.
  - now rewrite IH.
Qed.

Lemma rstrip_black (t : string) :
  every (non whitespace) t = true -> rstrip t = t.
Proof.
  induction t as [|c t IH]; simpl; [reflexivity |].
  intros H. apply andb_true_iff in H as [Hc Ht].
  rewrite (IH Ht). unfold non in Hc. apply negb_true_iff in Hc.
  destruct t; [now rewrite Hc | reflexivity].
Qed.

Lemma rstrip_before_black (a t : string) :
  t <> "" -> every (non whitespace) t = true ->
  rstrip (a ++ t) = (a ++ t)%string.
Proof.
  intros Nt Ht. induction a as [|c a IH]; simpl.
  - now apply rstrip_black.
  - rewrite IH. destruct (a ++ t)%string eqn:E; [| reflexivity].
    destruct a; [simpl in E; contradiction | discriminate E].
Qed.

Lemma lstrip_leading (a t : string) :
  every whitespace a = true -> every (non whitespace) t = true ->
  lstrip (a ++ t) = t.
Proof.
  intros Ha Ht. induction a as [|c a IH]; simpl.
  - destruct t as [|c t]; [reflexivity |]. simpl in *.
    apply andb_true_iff in Ht as [Hc _]. unfold non in Hc.
    apply negb_true_iff in Hc. now rewrite Hc.
  - simpl in Ha. apply andb_true_iff in Ha as [Hc Ha].
    rewrite Hc. now apply IH.
Qed.

Lemma strip_around (a t b : string) :
  every whitespace a = true ->
  every (non whitespace) t = true ->
  every whitespace b = true ->
  strip (a ++ t ++ b) = t.
Proof.
  intros Ha Ht Hb. unfold strip.
  replace (a ++ t ++ b)%string with ((a ++ t) ++ b)%string.
  2:{ clear. induction a as [|c a IH]; simpl; [reflexivity | now rewrite IH]. }
  rewrite (rstrip_trailing _ _ Hb).
  destruct t as [|c t].
  - replace (a ++ "")%string with a.
    2:{ clear. induction a as [|c a IH]; simpl; [reflexivity | now rewrite <- IH]. }
    now rewrite (rstrip_whitespace _ Ha).
  - rewrite rstrip_before_black; [| discriminate | exact Ht].
    now apply lstrip_leading.
Qed.

Lemma digit_black (c : ascii) : digit c = true -> non whitespace c = true.
Proof.
  unfold digit, non, whitespace. cbv zeta. intros H.
  apply andb_true_iff in H as [H1 H2].
  apply Nat.leb_le in H1, H2. apply negb_true_iff.
  destruct (Nat.leb_spec 9 (nat_of_ascii c)),
           (Nat.leb_spec (nat_of_ascii c) 13),
           (Nat.leb_spec 28 (nat_of_ascii c)),
           (Nat.leb_spec (nat_of_ascii c) 32),
           (Nat.eqb_spec (nat_of_ascii c) 133),
           (Nat.eqb_spec (nat_of_ascii c) 160);
    simpl; try reflexivity; lia.
Qed.

Lemma every_impl (p q : ascii -> bool) (s : string) :
  (forall c, p c = true -> q c = true) ->
  every p s = true -> every q s = true.
Proof.
  intros Hpq. induction s as [|c s IH]; simpl; [reflexivity |].
  intros H. apply andb_true_iff in H as [Hc Hs].
  now rewrite (Hpq c Hc), (IH Hs).
Qed.

Lemma plus_fails_all {A : Type} (p : ascii -> bool) (s : string)
    (cap : option string)
    (k : option string -> string -> string -> option A) :
  (forall t rest, s = (t ++ rest)%string -> k cap t rest = None) ->
  matches (Plus p) cap s k = None.
Proof.
  intros Hk. destruct s as [|c s]; [reflexivity |].
  unfold Plus. cbn [matches]. destruct (p c); [| reflexivity].
  apply star_fails. intros t rest -> _.
  now apply (Hk (String c t) rest).
Qed.

Lemma number_re_needs_dot (s : string) :
  every (non (lit "."%char)) s = true -> match_here number_re s = None.
Proof.
  intros Hs. unfold match_here, number_re. cbn [matches].
  apply plus_fails_all. intros t rest -> .
  rewrite every_app in Hs. apply andb_true_iff in Hs as [_ Hrest].
  apply non_starts in Hrest. cbn [matches].
  destruct rest as [|c rest]; [reflexivity |]. cbn [starts_in] in Hrest.
  now rewrite Hrest.
Qed.

Lemma search_number_needs_dot (s : string) :
  every (non (lit "."%char)) s = true -> search number_re s = None.
Proof.
  induction s as [|c s IH]; intros Hs.
  - reflexivity.
  - cbn [search]. rewrite (number_re_needs_dot _ Hs).
    simpl in Hs. apply andb_true_iff in Hs as [_ Hs]. now apply IH.
Qed.

Lemma search_here (r : regex) (s : string) (cap : option string) :
  match_here r s = Some cap -> search r s = Some cap.
Proof.
  intros H. destruct s; simpl; now rewrite H.
Qed.

(** X13: on a line whose first opening parenthesis is followed by [v]
    and by the last closing parenthesis of the line, the first pattern
    gives [v]: the version is what stands between the first opening and
    the last closing parenthesis. *)
Theorem version_between_parentheses (pre v post : string) :
  every (non (lit "("%char)) pre = true ->
  every dot v = true ->
  every (non (lit ")"%char)) post = true ->
  findall_first version_re (pre ++ "(" ++ v ++ ")" ++ post) = Some v.
Proof.
  intros Hpre Hv Hpost. unfold findall_first.
  rewrite (search_skips _ _ pre _ version_re_needs_open Hpre).
  now rewrite (search_here _ _ _ (version_re_between v post Hv Hpost)).
Qed.

Lemma version_between_parentheses_witness :
  findall_first version_re
    ("squeekboard " ++ "(" ++ "1.14.0-1) (x" ++ ")" ++ " experimental")
  = Some "1.14.0-1) (x".
Proof.
  exact (version_between_parentheses "squeekboard " "1.14.0-1) (x"
           " experimental" eq_refl eq_refl eq_refl).
Defined.

(** X14: the second pattern skips what has no digit and gives the first
    three runs of digits separated by two dots, each run whole. *)
Theorem number_in_version (vpre d1 d2 d3 vrest : string) :
  every (non digit) vpre = true ->
  d1 <> "" -> d2 <> "" -> d3 <> "" ->
  every digit d1 = true -> every digit d2 = true -> every digit d3 = true ->
  starts_in digit vrest = false ->
  findall_first number_re (vpre ++ d1 ++ "." ++ d2 ++ "." ++ d3 ++ vrest)
  = Some (d1 ++ "." ++ d2 ++ "." ++ d3)%string.
Proof.
  intros Hpre N1 N2 N3 H1 H2 H3 Hrest. unfold findall_first.
  rewrite (search_skips _ _ vpre _ number_re_needs_digit Hpre).
  now rewrite (search_here _ _ _
                 (number_re_at_number d1 d2 d3 vrest N1 N2 N3 H1 H2 H3 Hrest)).
Qed.

Lemma number_in_version_witness :
  findall_first number_re ("v" ++ "1" ++ "." ++ "14" ++ "." ++ "0" ++ "-1.2")
  = Some ("1" ++ "." ++ "14" ++ "." ++ "0")%string.
Proof.
  apply (number_in_version "v" "1" "14" "0" "-1.2");
    reflexivity || discriminate.
Defined.


Lemma append_assoc (a b c : string) :
  ((a ++ b) ++ c)%string = (a ++ b ++ c)%string.
Proof.
  induction a as [|x a IH]; simpl; [reflexivity | now rewrite IH].
Qed.

Lemma existsb_eqb_In (x : string) (l : list string) :
  existsb (String.eqb x) l = true <-> In x l.
Proof.
  rewrite existsb_exists. split.
  - intros (y & Hy & E). apply String.eqb_eq in E. now subst.
  - intros H. exists x. split; [assumption | apply String.eqb_refl].
Qed.

(** What the script does on a first line of the expected form. *)
Lemma check_release_on_line (line number : string) (lines : list string) :
  changelog_line line number ->
  check_release (Some line) lines
  = if existsb (String.eqb ("v" ++ number)%string) (map strip lines)
    then inr tt else inl (Exception missing_tag).
Proof.
  intros (pre & vpre & d1 & d2 & d3 & vrest & post & -> & -> & Hpre & Hpost
          & Hv & Hvpre & (N1 & N2 & N3) & (H1 & H2 & H3) & Hrest).
  unfold check_release.
  rewrite (version_between_parentheses pre _ post Hpre Hv Hpost).
  rewrite !append_assoc. cbn [append].
  pose proof (number_in_version vpre d1 d2 d3 vrest Hvpre N1 N2 N3 H1 H2 H3
                Hrest) as E.
  cbn [append] in E. rewrite E. reflexivity.
Qed.

(** X15: on a first line of the expected form, the check succeeds exactly
    when one of the remaining lines of the input, with the whitespace at
    its two ends removed, is [v] followed by the number; when there is no
    such line it raises the exception that asks to push the tag. *)
Theorem check_passes_iff_tag_listed (line number : string)
    (lines : list string) :
  changelog_line line number ->
  (check_release (Some line) lines = inr tt
   <-> exists l, In l lines /\ strip l = ("v" ++ number)%string)
  /\ (check_release (Some line) lines = inl (Exception missing_tag)
      <-> ~ exists l, In l lines /\ strip l = ("v" ++ number)%string).
Proof.
  intros Hline. rewrite (check_release_on_line _ _ lines Hline).
  assert (L : existsb (String.eqb ("v" ++ number)%string) (map strip lines)
              = true
              <-> exists l, In l lines /\ strip l = ("v" ++ number)%string).
  { rewrite existsb_eqb_In, in_map_iff. split.
    - intros (l & E & Hl). now exists l.
    - intros (l & Hl & E). now exists l. }
  destruct (existsb _ _).
  - split; split; try discriminate.
    + intros _. now apply L.
    + reflexivity.
    + intros N. exfalso. apply N. now apply L.
  - split; split; try discriminate.
    + intros H. apply L in H. discriminate H.
    + intros _ H. apply L in H. discriminate H.
    + reflexivity.
Qed.

Lemma squeekboard_line :
  changelog_line "squeekboard (1.14.0-1) experimental; urgency=medium"
                 "1.14.0".
Proof.
  exists "squeekboard ", "", "1", "14", "0", "-1",
         " experimental; urgency=medium".
  repeat split; reflexivity || discriminate.
Defined.

Lemma check_passes_iff_tag_listed_witness :
  (check_release
     (Some "squeekboard (1.14.0-1) experimental; urgency=medium")
     [("v1.13.0" ++ newline)%string; ("v1.14.0" ++ newline)%string]
   = inr tt
   <-> exists l, In l [("v1.13.0" ++ newline)%string; ("v1.14.0" ++ newline)%string] /\ strip l = ("v" ++ "1.14.0")%string)
  /\ (check_release
        (Some "squeekboard (1.14.0-1) experimental; urgency=medium")
        [("v1.13.0" ++ newline)%string; ("v1.14.0" ++ newline)%string]
      = inl (Exception missing_tag)
      <-> ~ exists l, In l [("v1.13.0" ++ newline)%string; ("v1.14.0" ++ newline)%string] /\ strip l = ("v" ++ "1.14.0")%string).
Proof.
  exact (check_passes_iff_tag_listed _ "1.14.0" _ squeekboard_line).
Defined.

(** X16: on a first line of the expected form, the check succeeds when
    the tag stands on one of the remaining lines, whatever whitespace,
    the end of the line included, surrounds it there. *)
Theorem tag_surrounded_by_whitespace (line number a b : string)
    (lines : list string) :
  changelog_line line number ->
  every whitespace a = true ->
  every whitespace b = true ->
  In (a ++ ("v" ++ number) ++ b)%string lines ->
  check_release (Some line) lines = inr tt.
Proof.
  intros Hline Ha Hb Hin. rewrite (check_release_on_line _ _ lines Hline).
  assert (T : every (non whitespace) ("v" ++ number) = true).
  { destruct Hline as (_ & _ & d1 & d2 & d3 & _ & _ & _ & -> & _ & _ & _ & _
                       & _ & (H1 & H2 & H3) & _).
    pose proof (fun d => every_impl digit (non whitespace) d digit_black)
      as D.
    cbn [append every]. rewrite every_app. cbn [every].
    rewrite every_app. cbn [every].
    now rewrite (D _ H1), (D _ H2), (D _ H3). }
  assert (E : existsb (String.eqb ("v" ++ number)%string) (map strip lines)
              = true).
  { apply existsb_eqb_In, in_map_iff.
    exists (a ++ ("v" ++ number) ++ b)%string. split; [| exact Hin].
    now apply strip_around. }
  now rewrite E.
Qed.

Lemma tag_surrounded_by_whitespace_witness :
  check_release
    (Some "squeekboard (1.14.0-1) experimental; urgency=medium")
    ["v1.13.0"; (" " ++ ("v" ++ "1.14.0") ++ newline)%string]
  = inr tt.
Proof.
  apply (tag_surrounded_by_whitespace _ "1.14.0" " " newline _
           squeekboard_line); [reflexivity | reflexivity |].
  right. now left.
Defined.

(** X17: a first line without an opening parenthesis, or without a
    closing one, makes the script die of the [IndexError] of line 8,
    whatever the remaining lines are. *)
Theorem no_parentheses_index_error (line : string) (lines : list string) :
  every (non (lit "("%char)) line = true
  \/ every (non (lit ")"%char)) line = true ->
  check_release (Some line) lines = inl IndexError.
Proof.
  intros H. unfold check_release, findall_first.
  assert (E : search version_re line = None).
  { destruct H as [H | H].
    - exact (search_none _ _ _ version_re_needs_open H).
    - now apply search_unclosed. }
  now rewrite E.
Qed.

Lemma no_parentheses_index_error_witness :
  check_release (Some "squeekboard 1.14.0-1) experimental") ["v1.14.0"]
  = inl IndexError.
Proof.
  apply no_parentheses_index_error. left. reflexivity.
Defined.

(** X18: when the version between the parentheses has no dot, the script
    dies of the [IndexError] of line 9, whatever the remaining lines
    are. *)
Theorem version_without_dot_index_error (pre v post : string)
    (lines : list string) :
  every (non (lit "("%char)) pre = true ->
  every dot v = true ->
  every (non (lit ")"%char)) post = true ->
  every (non (lit "."%char)) v = true ->
  check_release (Some (pre ++ "(" ++ v ++ ")" ++ post)%string) lines
  = inl IndexError.
Proof.
  intros Hpre Hv Hpost Hdot. unfold check_release.
  rewrite (version_between_parentheses pre v post Hpre Hv Hpost).
  unfold findall_first. now rewrite (search_number_needs_dot _ Hdot).
Qed.

Lemma version_without_dot_index_error_witness :
  check_release
    (Some ("squeekboard " ++ "(" ++ "20240101-1" ++ ")" ++ " x")%string)
    ["v20240101"]
  = inl IndexError.
Proof.
  exact (version_without_dot_index_error "squeekboard " "20240101-1" " x"
           ["v20240101"] eq_refl eq_refl eq_refl eq_refl).
Defined.

End CheckReleaseFacts.

(** ** Facts about the grids of the demo window *)

Module EntryDemoFacts.
Import EntryDemo.

Lemma attached_attach (grid : Grid) (w : Widget) (l t wd h : nat) :
  attached (attach grid w l t wd h)
  = attached grid
      ++ [{| child := w; left := l; top := t; width := wd; height := h |}].
Proof. reflexivity. Qed.

(** The loop keeps what was attached before it. *)
Lemma new_grid_rows_keeps {V : Type} (set_type : Entry -> V -> Entry)
    (items : list (string * V)) (i : nat) (grid : Grid) (a : Attach) :
  In a (attached grid) -> In a (attached (new_grid_rows set_type items i grid)).
Proof.
  revert i grid. induction items as [|[text value] items IH]; intros i grid H.
  - exact H.
  - cbn [new_grid_rows]. apply IH. rewrite !attached_attach, !in_app_iff.
    tauto.
Qed.

Lemma new_grid_rows_nth {V : Type} (set_type : Entry -> V -> Entry)
    (items : list (string * V)) (i k : nat) (grid : Grid)
    (text : string) (value : V) :
  nth_error items k = Some (text, value) ->
  In {| child := Label text; left := 0; top := i + k;
        width := 1; height := 1 |}
     (attached (new_grid_rows set_type items i grid))
  /\ In {| child := EntryWidget (set_type new_entry value); left := 1;
           top := i + k; width := 1; height := 1 |}
        (attached (new_grid_rows set_type items i grid)).
Proof.
  revert i k grid.
  induction items as [|[text' value'] items IH]; intros i k grid H.
  - destruct k; discriminate H.
  - cbn [new_grid_rows]. destruct k as [|k]; simpl in H.
    + injection H as -> ->. rewrite Nat.add_0_r.
      split; apply new_grid_rows_keeps; rewrite !attached_attach, !in_app_iff;
        simpl; tauto.
    + replace (i + S k) with (i + 1 + k) by lia. now apply IH.
Qed.

(** The loop fills new cells only, below the rows used so far. *)
Lemma new_grid_rows_cells {V : Type} (set_type : Entry -> V -> Entry)
    (items : list (string * V)) (i : nat) (grid : Grid) :
  (forall a, In a (attached grid) -> top a < i) ->
  NoDup (map cell (attached grid)) ->
  NoDup (map cell (attached (new_grid_rows set_type items i grid)))
  /\ (forall a, In a (attached (new_grid_rows set_type items i grid)) ->
                top a < i + length items)
  /\ length (attached (new_grid_rows set_type items i grid))
     = length (attached grid) + 2 * length items.
Proof.
  revert i grid.
  induction items as [|[text value] items IH]; intros i grid Htop Hdup.
  - cbn [new_grid_rows length]. repeat split; [exact Hdup | | lia].
    intros a Ha. specialize (Htop a Ha). lia.
  - cbn [new_grid_rows].
    set (g2 := attach (attach grid (Label text) 0 i 1 1)
                 (EntryWidget (set_type new_entry value)) 1 i 1 1).
    assert (Htop2 : forall a, In a (attached g2) -> top a < i + 1).
    { intros a Ha. subst g2. rewrite !attached_attach, !in_app_iff in Ha.
      simpl in Ha. destruct Ha as [[Ha | [<- | []]] | [<- | []]]; simpl;
        [specialize (Htop a Ha) |..]; lia. }
    assert (Hdup2 : NoDup (map cell (attached g2))).
    { subst g2. rewrite !attached_attach, !map_app. simpl.
      rewrite <- app_assoc. simpl.
      apply NoDup_app; [exact Hdup | | ].
      - constructor; [| constructor; [intros [] | constructor]].
        intros [E | []]. discriminate E.
      - intros c Hc [<- | [<- | []]];
          apply in_map_iff in Hc as (a & E & Ha);
          specialize (Htop a Ha); unfold cell in E;
          injection E as _ E; lia. }
    destruct (IH (i + 1) g2 Htop2 Hdup2) as (D & T & L).
    repeat split; [exact D | |].
    + intros a Ha. specialize (T a Ha). simpl. lia.
    + rewrite L. subst g2. rewrite !attached_attach, !length_app. simpl. lia.
Qed.

Lemma new_grid_rows_columns {V : Type} (set_type : Entry -> V -> Entry)
    (items : list (string * V)) (i : nat) (grid : Grid) (a : Attach) :
  (forall b, In b (attached grid) -> left b < 2) ->
  In a (attached (new_grid_rows set_type items i grid)) ->
  left a < 2.
Proof.
  revert i grid.
  induction items as [|[text value] items IH]; intros i grid Hg Ha.
  - now apply Hg.
  - cbn [new_grid_rows] in Ha. apply IH in Ha; [exact Ha |].
    intros b Hb. rewrite !attached_attach, !in_app_iff in Hb. simpl in Hb.
    destruct Hb as [[Hb | [<- | []]] | [<- | []]]; simpl;
      [now apply Hg | lia | lia].
Qed.

(** X19: [new_grid] gives the item of index [k] the row [k]: its label in
    column 0 and, in column 1, a fresh entry on which [set_type] was
    called with the value of the item; both one cell wide and high. *)
Theorem new_grid_row_of_item {V : Type} (items : list (string * V))
    (set_type : Entry -> V -> Entry) (k : nat) (text : string) (value : V) :
  nth_error items k = Some (text, value) ->
  In {| child := Label text; left := 0; top := k; width := 1; height := 1 |}
     (attached (new_grid items set_type))
  /\ In {| child := EntryWidget (set_type new_entry value); left := 1;
           top := k; width := 1; height := 1 |}
        (attached (new_grid items set_type)).
Proof.
  intros H. unfold new_grid.
  exact (new_grid_rows_nth set_type items 0 k _ text value H).
Qed.

Lemma new_grid_row_of_item_witness :
  In {| child := Label "Uppercase chars"; left := 0; top := 1;
        width := 1; height := 1 |}
     (attached (new_grid hints add_hint))
  /\ In {| child := EntryWidget (add_hint new_entry UPPERCASE_CHARS);
           left := 1; top := 1; width := 1; height := 1 |}
        (attached (new_grid hints add_hint)).
Proof.
  exact (new_grid_row_of_item hints add_hint 1 "Uppercase chars"
           UPPERCASE_CHARS eq_refl).
Defined.

(** X20: the grid [new_grid] builds has two children per item, no two of
    them in the same cell, and all of them in the rows 0 to the number
    of items less one. *)
Theorem new_grid_cells_distinct {V : Type} (items : list (string * V))
    (set_type : Entry -> V -> Entry) :
  NoDup (map cell (attached (new_grid items set_type)))
  /\ length (attached (new_grid items set_type)) = 2 * length items
  /\ Forall (fun a => top a < length items /\ left a < 2)
            (attached (new_grid items set_type)).
Proof.
  unfold new_grid.
  set (g0 := {| orientation := "vertical"; column_spacing := 8;
                row_spacing := 8; margin := 6; attached := [] |}).
  destruct (new_grid_rows_cells set_type items 0 g0) as (D & T & L).
  { intros a []. }
  { constructor. }
  split; [exact D |]. split; [exact L |].
  apply Forall_forall. intros a Ha. split; [exact (T a Ha) |].
  apply (new_grid_rows_columns set_type items 0 g0 a); [| exact Ha].
  intros b [].
Qed.

(** X21: in the purpose grid of the window, with or without the terminal
    purpose, every purpose of the list has its own row, whose entry has
    that input purpose; the row of the random entry comes right after
    them, its entry starts with the free-form purpose and listens to the
    focus; and no two children of the grid share a cell. *)
Theorem purpose_grid_layout (has_terminal : bool) :
  (forall k text purpose,
      nth_error (purposes has_terminal) k = Some (text, purpose) ->
      In {| child := Label text; left := 0; top := k;
            width := 1; height := 1 |}
         (attached (purpose_grid has_terminal))
      /\ In {| child := EntryWidget
                          {| hexpand := true; input_purpose := Some purpose;
                             input_hints := None; handlers := [] |};
               left := 1; top := k; width := 1; height := 1 |}
            (attached (purpose_grid has_terminal)))
  /\ In {| child := Label "Random"; left := 0;
           top := length (purposes has_terminal); width := 1; height := 1 |}
        (attached (purpose_grid has_terminal))
  /\ In {| child := EntryWidget
                      {| hexpand := true; input_purpose := Some FREE_FORM;
                         input_hints := None;
                         handlers := ["notify::is-focus"] |};
           left := 1; top := length (purposes has_terminal);
           width := 1; height := 1 |}
        (attached (purpose_grid has_terminal))
  /\ NoDup (map cell (attached (purpose_grid has_terminal))).
Proof.
  unfold purpose_grid, add_random. rewrite !attached_attach.
  split; [| split; [| split]].
  - intros k text purpose H.
    destruct (new_grid_rows_nth add_purpose (purposes has_terminal) 0 k
                {| orientation := "vertical"; column_spacing := 8;
                   row_spacing := 8; margin := 6; attached := [] |}
                text purpose H) as [H1 H2].
    rewrite !in_app_iff. split; left; left; assumption.
  - rewrite !in_app_iff. left. right. now left.
  - rewrite !in_app_iff. right. now left.
  - destruct (new_grid_rows_cells add_purpose (purposes has_terminal) 0
                {| orientation := "vertical"; column_spacing := 8;
                   row_spacing := 8; margin := 6; attached := [] |})
      as (D & T & _).
    { intros a []. }
    { constructor. }
    fold (new_grid (purposes has_terminal) add_purpose) in D, T.
    rewrite !map_app. simpl. rewrite <- app_assoc. simpl.
    apply NoDup_app; [exact D | |].
    + constructor; [| constructor; [intros [] | constructor]].
      intros [E | []]. discriminate E.
    + intros c Hc [<- | [<- | []]];
        apply in_map_iff in Hc as (a & E & Ha);
        specialize (T a Ha); unfold cell in E;
        injection E as _ E; simpl in T; lia.
Qed.

End EntryDemoFacts.
